(** * Tracing core of sentry-javascript: transactions, tracestate codec,
      envelope serialisation and the sampling decision.

    Shallow embedding of
      - packages/tracing/src/transaction.ts   (Transaction)
      - packages/core/src/request.ts          (eventToSentryRequest & co.)
      - packages/utils/src/string.ts          (unicodeToBase64, base64ToUnicode)
    together with the host built-ins those functions call (btoa, atob,
    Buffer, JSON.stringify, String.prototype.replace). *)

From Stdlib Require Import String Ascii DecimalString QArith NArith ZArith Bool List Lia.
Import ListNotations.
Close Scope Q_scope.

Set Implicit Arguments.

(* ================================================================= *)
(** ** JavaScript values *)

Module JS.

(** A JavaScript string is a sequence of UTF-16 code units. *)
Definition jsstring := list N.

(** Literal strings of the source, written as Rocq strings. *)
Definition lit (s : string) : jsstring :=
  List.map N_of_ascii (list_ascii_of_string s).

Definition jsstring_eqb (a b : jsstring) : bool :=
  if list_eq_dec N.eq_dec a b then true else false.

(** Truthiness of a string: only the empty string is falsy. *)
Definition str_truthy (s : jsstring) : bool :=
  match s with [] => false | _ => true end.

(** [a || b] on optional strings ([undefined] is [None]). *)
Definition opt_str_truthy (o : option jsstring) : bool :=
  match o with Some s => str_truthy s | None => false end.

(** Numbers.  Timestamps and JSON numbers are kept on an integer grid
    (a fixed sub-unit of a second); [NaN] is kept because it is falsy and
    compares false with everything. *)
Inductive jsnum :=
| NaN
| Num (z : Z).

Definition num_truthy (n : jsnum) : bool :=
  match n with NaN => false | Num z => negb (z =? 0)%Z end.

Definition opt_num_truthy (o : option jsnum) : bool :=
  match o with Some n => num_truthy n | None => false end.

(** [a > b] of the language: false as soon as one side is NaN. *)
Definition num_gt (a b : jsnum) : bool :=
  match a, b with
  | Num x, Num y => (y <? x)%Z
  | _, _ => false
  end.

(** [a <= b] as a proposition, on proper numbers only. *)
Definition num_le (a b : jsnum) : Prop :=
  match a, b with
  | Num x, Num y => (x <= y)%Z
  | _, _ => False
  end.

(** [s.replace(pat, rep)] with a one-character string pattern: only the first
    occurrence is replaced. *)
Fixpoint replace_first (pat rep : N) (s : jsstring) : jsstring :=
  match s with
  | [] => []
  | c :: rest =>
      if (c =? pat)%N then rep :: rest else c :: replace_first pat rep rest
  end.

(** [s.replace(/={1,2}$/, rep)]: the leftmost position from which one or two
    '=' reach the end of the string is replaced by [rep]. *)
Fixpoint replace_trailing_pad (rep : jsstring) (s : jsstring) : jsstring :=
  match s with
  | [] => []
  | c :: rest =>
      match s with
      | [61%N] | [61%N; 61%N] => rep
      | _ => c :: replace_trailing_pad rep rest
      end
  end.

End JS.
Import JS.

(* ================================================================= *)
(** ** packages/utils/src/string.ts: base64 conversion *)

Module Base64.

(** Character of a 6-bit value in the base64 alphabet. *)
Definition b64char (i : N) : N :=
  if (i <? 26)%N then (65 + i)%N
  else if (i <? 52)%N then (71 + i)%N
  else if (i <? 62)%N then (i - 4)%N
  else if (i =? 62)%N then 43%N
  else 47%N.

(** [[a-zA-Z0-9+/]] *)
Definition is_b64char (c : N) : bool :=
  ((65 <=? c) && (c <=? 90) || (97 <=? c) && (c <=? 122)
   || (48 <=? c) && (c <=? 57) || (c =? 43) || (c =? 47))%N.

(** 6-bit value of an alphabet character. *)
Definition b64val (c : N) : N :=
  if ((65 <=? c) && (c <=? 90))%N then (c - 65)%N
  else if ((97 <=? c) && (c <=? 122))%N then (c - 71)%N
  else if ((48 <=? c) && (c <=? 57))%N then (c + 4)%N
  else if (c =? 43)%N then 62%N
  else 63%N.

Definition pad : N := 61%N.       (* '=' *)

(** The four 6-bit groups of three bytes [a], [b], [c]. *)
Definition sextet1 (a : N) : N := N.shiftr a 2.
Definition sextet2 (a b : N) : N :=
  N.lor (N.shiftl (N.land a 3) 4) (N.shiftr b 4).
Definition sextet3 (b c : N) : N :=
  N.lor (N.shiftl (N.land b 15) 2) (N.shiftr c 6).
Definition sextet4 (c : N) : N := N.land c 63.

(** RFC 4648 encoding of a byte sequence: an incomplete last group is
    completed with zero bits and padded. *)
Fixpoint encode_bytes (bs : list N) : jsstring :=
  match bs with
  | [] => []
  | [a] => [b64char (sextet1 a); b64char (sextet2 a 0); pad; pad]
  | [a; b] =>
      [b64char (sextet1 a); b64char (sextet2 a b); b64char (sextet3 b 0); pad]
  | a :: b :: c :: rest =>
      b64char (sextet1 a) :: b64char (sextet2 a b) :: b64char (sextet3 b c)
      :: b64char (sextet4 c) :: encode_bytes rest
  end.

(** Bytes carried by a sequence of 6-bit values; an incomplete last group
    gives the bytes it fully determines. *)
Fixpoint decode_vals (vs : list N) : list N :=
  match vs with
  | a :: b :: c :: d :: rest =>
      N.lor (N.shiftl a 2) (N.shiftr b 4)
      :: N.lor (N.shiftl (N.land b 15) 4) (N.shiftr c 2)
      :: N.lor (N.shiftl (N.land c 3) 6) d
      :: decode_vals rest
  | [a; b; c] =>
      [N.lor (N.shiftl a 2) (N.shiftr b 4);
       N.lor (N.shiftl (N.land b 15) 4) (N.shiftr c 2)]
  | [a; b] => [N.lor (N.shiftl a 2) (N.shiftr b 4)]
  | _ => []
  end.

(** The padding that ends the encoding of [n] bytes. *)
Definition padding_of (n : nat) : jsstring :=
  match (n mod 3)%nat with
  | 0%nat => []
  | 1%nat => [pad; pad]
  | _ => [pad]
  end.

(** The numbers below [n], for properties checked by enumeration. *)
Definition N_below (n : nat) : list N := List.map N.of_nat (seq 0 n).

(** Errors raised by the host built-ins. *)
Inductive HostError :=
| InvalidCharacterError      (* btoa / atob *)
| RangeError.                (* typed-array view over an odd byte length,
                                or a call with too many arguments *)

(** [btoa]: every character of the binary string must be a byte. *)
Definition btoa (s : jsstring) : HostError + jsstring :=
  if forallb (fun c => (c <? 256)%N) s then inr (encode_bytes s)
  else inl InvalidCharacterError.

Definition is_ascii_whitespace (c : N) : bool :=
  ((c =? 9) || (c =? 10) || (c =? 12) || (c =? 13) || (c =? 32))%N.

(** The string without its last character, when that one is '='. *)
Definition drop_last_pad (s : jsstring) : option jsstring :=
  match rev s with
  | c :: r => if (c =? pad)%N then Some (rev r) else None
  | [] => None
  end.

(** Removal of one or two trailing '=' (forgiving-base64 decode, step 2). *)
Definition strip_padding (s : jsstring) : jsstring :=
  match drop_last_pad s with
  | Some s1 =>
      match drop_last_pad s1 with
      | Some s2 => s2
      | None => s1
      end
  | None => s
  end.

(** [atob]: the forgiving-base64 decode of the HTML standard. *)
Definition atob (s : jsstring) : HostError + jsstring :=
  let s1 := filter (fun c => negb (is_ascii_whitespace c)) s in
  let s2 := if (N.of_nat (length s1) mod 4 =? 0)%N then strip_padding s1 else s1 in
  if (N.of_nat (length s2) mod 4 =? 1)%N then inl InvalidCharacterError
  else if forallb is_b64char s2 then inr (decode_vals (List.map b64val s2))
  else inl InvalidCharacterError.

(** [Buffer.from(s, 'utf16le')]: two bytes per code unit, low byte first. *)
Fixpoint utf16le_bytes (s : jsstring) : list N :=
  match s with
  | [] => []
  | c :: rest =>
      N.land c 255 :: N.land (N.shiftr c 8) 255 :: utf16le_bytes rest
  end.

(** [buf.toString('utf16le')]: a trailing odd byte is dropped. *)
Fixpoint utf16le_string (bs : list N) : jsstring :=
  match bs with
  | lo :: hi :: rest => N.lor lo (N.shiftl hi 8) :: utf16le_string rest
  | _ => []
  end.

(** [Buffer.from(s, 'base64')]: decoding stops at the first '=', characters
    outside the alphabet are skipped. *)
Fixpoint buffer_b64_chars (s : jsstring) : list N :=
  match s with
  | [] => []
  | c :: rest =>
      if (c =? pad)%N then []
      else if is_b64char c then c :: buffer_b64_chars rest
      else buffer_b64_chars rest
  end.

Definition buffer_from_base64 (s : jsstring) : list N :=
  decode_vals (List.map b64val (buffer_b64_chars s)).

(** What [getGlobalObject()] offers: a browser has [btoa]/[atob], node has
    [Buffer]; some hosts have both, some neither.  [max_arguments] is the
    largest number of arguments the host accepts in one call. *)
Record Global := mkGlobal {
  has_btoa : bool;
  has_atob : bool;
  has_Buffer : bool;
  max_arguments : N
}.

(** [String.fromCharCode(...units)]: every unit is spread into an argument of
    its own, and the call throws when there are too many. *)
Definition fromCharCode_spread (g : Global) (units : list N)
  : HostError + jsstring :=
  if (N.of_nat (length units) <=? max_arguments g)%N then inr units
  else inl RangeError.

(** The [SentryError]s of string.ts, by throw site. *)
Inductive SentryError :=
| NotBase64                         (* input isn't a string or isn't valid base64 *)
| ConversionFailed (e : HostError)  (* errMsg + ' Got error: ' + err *)
| NoConverter.                      (* neither built-in is available: errMsg *)

(** [BASE64_REGEX.test(s)]:
    [^(?:[a-zA-Z0-9+/]{4})*(?:|(?:[a-zA-Z0-9+/]{3}=)|(?:[a-zA-Z0-9+/]{2}==)|(?:[a-zA-Z0-9+/]{1}===))$] *)
Fixpoint BASE64_REGEX_test (s : jsstring) : bool :=
  match s with
  | [] => true
  | a :: b :: c :: d :: rest =>
      if is_b64char a && is_b64char b && is_b64char c && is_b64char d
      then BASE64_REGEX_test rest
      else
        match rest with
        | [] =>
            is_b64char a
            && ((is_b64char b && is_b64char c && (d =? pad)%N)
                || (is_b64char b && (c =? pad)%N && (d =? pad)%N)
                || ((b =? pad)%N && (c =? pad)%N && (d =? pad)%N))
        | _ => false
        end
  | _ => false
  end.

(** [unicodeToBinary]: the bytes of the Uint16Array holding the code units
    (little-endian host), read back as one character per byte. *)
Definition unicodeToBinary (g : Global) (unicodeString : jsstring)
  : HostError + jsstring :=
  fromCharCode_spread g (utf16le_bytes unicodeString).

(** [binaryToUnicode]: a Uint16Array view over the bytes, read back as one
    character per 16-bit unit; the view cannot be built over an odd number of
    bytes. *)
Definition binaryToUnicode (g : Global) (binaryString : jsstring)
  : HostError + jsstring :=
  let bytes := List.map (fun c => N.land c 255) binaryString in
  if Nat.even (length bytes) then fromCharCode_spread g (utf16le_string bytes)
  else inl RangeError.

(** [base64ToUnicode] *)
Definition base64ToUnicode (g : Global) (base64String : jsstring)
  : SentryError + jsstring :=
  if negb (BASE64_REGEX_test base64String) then inl NotBase64
  else if has_atob g then
    match atob base64String with
    | inl e => inl (ConversionFailed e)
    | inr bin =>
        match binaryToUnicode g bin with
        | inl e => inl (ConversionFailed e)
        | inr u => inr u
        end
    end
  else if has_Buffer g then
    inr (utf16le_string (buffer_from_base64 base64String))
  else inl NoConverter.

(** [unicodeToBase64] *)
Definition unicodeToBase64 (g : Global) (unicodeString : jsstring)
  : SentryError + jsstring :=
  if has_btoa g then
    match unicodeToBinary g unicodeString with
    | inl e => inl (ConversionFailed e)
    | inr bin =>
        match btoa bin with
        | inl e => inl (ConversionFailed e)
        | inr b => inr b
        end
    end
  else if has_Buffer g then
    inr (encode_bytes (utf16le_bytes unicodeString))
  else inl NoConverter.

(** Whether the host can encode [unicodeString]: through [btoa] when its
    bytes fit one call, through [Buffer] otherwise. *)
Definition can_encode (g : Global) (unicodeString : jsstring) : bool :=
  if has_btoa g
  then (N.of_nat (length (utf16le_bytes unicodeString)) <=? max_arguments g)%N
  else has_Buffer g.


(** The error of [unicodeToBase64] on a host that cannot encode. *)
Definition encode_error (g : Global) : SentryError :=
  if has_btoa g then ConversionFailed RangeError else NoConverter.

End Base64.
Import Base64.

(* ================================================================= *)
(** ** JSON values and [JSON.stringify] *)

Module Json.

(** What [JSON.stringify] sees once every [toJSON] has been applied.  An
    object is the ordered list of its own enumerable properties. *)
#[local] Unset Elimination Schemes.
Inductive json :=
| JUndefined
| JNull
| JBool (b : bool)
| JNum (n : jsnum)
| JStr (s : jsstring)
| JArr (items : list json)
| JObj (props : list (jsstring * json)).
#[local] Set Elimination Schemes.

(** Induction over a value and the values it contains. *)
Section JsonInduction.
Variable P : json -> Prop.
Hypothesis P_undefined : P JUndefined.
Hypothesis P_null : P JNull.
Hypothesis P_bool : forall b, P (JBool b).
Hypothesis P_num : forall n, P (JNum n).
Hypothesis P_str : forall s, P (JStr s).
Hypothesis P_arr : forall items, Forall P items -> P (JArr items).
Hypothesis P_obj :
  forall props, Forall (fun kv => P (snd kv)) props -> P (JObj props).

Fixpoint json_ind (v : json) : P v :=
  match v with
  | JUndefined => P_undefined
  | JNull => P_null
  | JBool b => P_bool b
  | JNum n => P_num n
  | JStr s => P_str s
  | JArr items =>
      P_arr
        ((fix all (l : list json) : Forall P l :=
            match l with
            | [] => Forall_nil P
            | x :: more => Forall_cons x (json_ind x) (all more)
            end) items)
  | JObj props =>
      P_obj
        ((fix all (l : list (jsstring * json))
            : Forall (fun kv => P (snd kv)) l :=
            match l with
            | [] => Forall_nil _
            | kv :: more =>
                @Forall_cons _ (fun kv => P (snd kv)) kv more
                             (json_ind (snd kv)) (all more)
            end) props)
  end.
End JsonInduction.

Definition json_truthy (v : json) : bool :=
  match v with
  | JUndefined | JNull => false
  | JBool b => b
  | JNum n => num_truthy n
  | JStr s => str_truthy s
  | JArr _ | JObj _ => true
  end.

Definition hex_digit (n : N) : N :=
  if (n <? 10)%N then (48 + n)%N else (87 + n)%N.

(** [\uXXXX], lower-case hexadecimal. *)
Definition unicode_escape (c : N) : jsstring :=
  [92%N; 117%N;
   hex_digit (N.land (N.shiftr c 12) 15); hex_digit (N.land (N.shiftr c 8) 15);
   hex_digit (N.land (N.shiftr c 4) 15); hex_digit (N.land c 15)].

Definition is_high_surrogate (c : N) : bool := ((55296 <=? c) && (c <=? 56319))%N.
Definition is_low_surrogate (c : N) : bool := ((56320 <=? c) && (c <=? 57343))%N.

(** One code unit that is not a surrogate, inside a JSON string. *)
Definition quote_unit (c : N) : jsstring :=
  if (c =? 8)%N then [92%N; 98%N]
  else if (c =? 9)%N then [92%N; 116%N]
  else if (c =? 10)%N then [92%N; 110%N]
  else if (c =? 12)%N then [92%N; 102%N]
  else if (c =? 13)%N then [92%N; 114%N]
  else if (c =? 34)%N then [92%N; 34%N]
  else if (c =? 92)%N then [92%N; 92%N]
  else if (c <? 32)%N then unicode_escape c
  else [c].

(** Body of QuoteJSONString: surrogate pairs are kept, lone surrogates are
    escaped. *)
Fixpoint quote_units (s : jsstring) : jsstring :=
  match s with
  | [] => []
  | c :: rest =>
      if is_high_surrogate c then
        match rest with
        | d :: rest' =>
            if is_low_surrogate d then c :: d :: quote_units rest'
            else unicode_escape c ++ quote_units rest
        | [] => unicode_escape c
        end
      else if is_low_surrogate c then unicode_escape c ++ quote_units rest
      else quote_unit c ++ quote_units rest
  end.

Definition quote (s : jsstring) : jsstring :=
  34%N :: quote_units s ++ [34%N].

(** Number::toString on the integer grid, for safe integers (magnitude below
    2^53), which are written with all their digits; NaN serialises as
    [null].  Fractional and infinite numbers are not represented. *)
Definition number_text (n : jsnum) : jsstring :=
  match n with
  | NaN => lit "null"
  | Num z => lit (NilZero.string_of_int (Z.to_int z))
  end.

Fixpoint join (sep : jsstring) (parts : list jsstring) : jsstring :=
  match parts with
  | [] => []
  | [p] => p
  | p :: more => p ++ sep ++ join sep more
  end.

Section Serialize.
Variable ser : json -> option jsstring.

(** Array elements that serialise to [undefined] are written [null]. *)
Definition array_text (items : list json) : jsstring :=
  lit "[" ++
  join (lit ",")
       (List.map (fun x => match ser x with Some t => t | None => lit "null" end)
                 items)
  ++ lit "]".

(** Properties whose value serialises to [undefined] are left out. *)
Definition object_text (props : list (jsstring * json)) : jsstring :=
  lit "{" ++
  join (lit ",")
       (List.flat_map
          (fun kv => match kv with
                     | (k, v) => match ser v with
                                 | Some t => [quote k ++ lit ":" ++ t]
                                 | None => []
                                 end
                     end)
          props)
  ++ lit "}".

End Serialize.

(** [JSON.stringify(v)], without replacer or indentation; [None] is the
    [undefined] result. *)
Fixpoint stringify (v : json) : option jsstring :=
  match v with
  | JUndefined => None
  | JNull => Some (lit "null")
  | JBool b => Some (if b then lit "true" else lit "false")
  | JNum n => Some (number_text n)
  | JStr s => Some (quote s)
  | JArr items => Some (array_text stringify items)
  | JObj props => Some (object_text stringify props)
  end.

(** [JSON.stringify(o)] for an object [o]: always a string. *)
Definition stringify_object (props : list (jsstring * json)) : jsstring :=
  object_text stringify props.

(** Property read [o[k]] on an object: [undefined] when absent. *)
Fixpoint get (k : jsstring) (props : list (jsstring * json)) : json :=
  match props with
  | [] => JUndefined
  | (k', v) :: rest => if jsstring_eqb k' k then v else get k rest
  end.

(** [delete o[k]] *)
Definition delete (k : jsstring) (props : list (jsstring * json))
  : list (jsstring * json) :=
  filter (fun kv => negb (jsstring_eqb (fst kv) k)) props.

Definition has_key (k : jsstring) (props : list (jsstring * json)) : bool :=
  existsb (fun kv => jsstring_eqb (fst kv) k) props.

(** [v?.k]: [undefined] on [undefined] and [null]; a primitive or an array
    has no such property. *)
Definition opt_chain (v : json) (k : jsstring) : json :=
  match v with
  | JObj props => get k props
  | _ => JUndefined
  end.

End Json.
Import Json.

(* ================================================================= *)
(** ** Logger *)

(** What a [catch] clause can receive in this code. *)
Inductive Thrown :=
| ThrownSentryError (e : SentryError)
| ThrownTypeError.                 (* calling a method a value doesn't have *)

(** Calls of [logger.warn] and [logger.log], in order; only the first
    argument of a call is recorded. *)
Inductive LogEntry :=
| Warn (msg : jsstring)
| WarnThrown (err : Thrown)
| Log (msg : jsstring).

(* ================================================================= *)
(** ** packages/core/src/request.ts *)

Module Request.

(** The two url helpers of [API] that request.ts calls. *)
Record API := mkAPI {
  getStoreEndpointWithUrlEncodedAuth : jsstring;
  getEnvelopeEndpointWithUrlEncodedAuth : jsstring
}.

(** An [Event] (or a [Session]) as the serialiser handles it: its own
    properties, in order. *)
Definition Event := list (jsstring * json).

Record SentryRequest := mkRequest {
  body : jsstring;
  type : json;
  url : jsstring
}.

Definition newline : N := 10%N.

(** A text without line feed. *)
Definition one_line (s : jsstring) : Prop := Forall (fun c => c <> newline) s.

(** [s.split('\n')]: the lines of a payload. *)
Fixpoint split_lines (s : jsstring) : list jsstring :=
  match s with
  | [] => [[]]
  | c :: rest =>
      if (c =? newline)%N then [] :: split_lines rest
      else match split_lines rest with
           | l :: ls => (c :: l) :: ls
           | [] => [[c]]
           end
  end.

(** The item header of a transaction envelope: [{"type":"transaction"}]. *)
Definition transaction_item_header : jsstring :=
  lit "{" ++ quote (lit "type") ++ lit ":" ++ quote (lit "transaction") ++ lit "}".

(** The item header of a session envelope: [{"type":"session"}]. *)
Definition session_item_header : jsstring :=
  lit "{" ++ quote (lit "type") ++ lit ":" ++ quote (lit "session") ++ lit "}".

(** The [try] block computing [tracestateJSON]: the value and what the
    [catch] clause logged. *)
Definition decode_tracestate (g : Global) (tracestate : json)
  : json * list LogEntry :=
  if json_truthy tracestate then
    match tracestate with
    | JStr s =>
        match base64ToUnicode g (replace_first 46 61 s) with
        | inr u => (JStr u, [])
        | inl err => (JStr [], [WarnThrown (ThrownSentryError err)])
        end
    | _ => (JStr [], [WarnThrown ThrownTypeError])
    end
  else (JUndefined, []).

Definition envelopeHeaders_of (sent_at : jsstring) (event : Event)
           (tracestateJSON : json) : jsstring :=
  stringify_object
    [(lit "event_id", get (lit "event_id") event);
     (lit "sent_at", JStr sent_at);
     (lit "trace_id",
       opt_chain (opt_chain (get (lit "contexts") event) (lit "trace"))
                 (lit "trace_id"));
     (lit "trace", tracestateJSON)].

Definition itemHeaders_of (event : Event) : jsstring :=
  stringify_object [(lit "type", get (lit "type") event)].

(** [transactionToSentryRequest(event, api)].  [sent_at] is
    [new Date().toISOString()].  The result carries the request, the event as
    the call leaves it ([delete event.tracestate]) and the log output. *)
Definition transactionToSentryRequest (g : Global) (sent_at : jsstring)
           (event : Event) (api : API)
  : SentryRequest * Event * list LogEntry :=
  let '(tracestateJSON, logged) :=
    decode_tracestate g (get (lit "tracestate") event) in
  let event := delete (lit "tracestate") event in
  let envelopeHeaders := envelopeHeaders_of sent_at event tracestateJSON in
  let itemHeaders := itemHeaders_of event in
  let req :=
    {| body := envelopeHeaders ++ [newline] ++ itemHeaders ++ [newline]
               ++ stringify_object event;
       type := JStr (lit "transaction");
       url := getEnvelopeEndpointWithUrlEncodedAuth api |} in
  (req, event, logged).

(** [event.type === 'transaction'] *)
Definition is_transaction (event : Event) : bool :=
  match get (lit "type") event with
  | JStr s => jsstring_eqb s (lit "transaction")
  | _ => false
  end.

(** [eventToSentryRequest(event, api)] *)
Definition eventToSentryRequest (g : Global) (sent_at : jsstring)
           (event : Event) (api : API)
  : SentryRequest * Event * list LogEntry :=
  if is_transaction event then transactionToSentryRequest g sent_at event api
  else
    ({| body := stringify_object event;
        type := if json_truthy (get (lit "type") event)
                then get (lit "type") event else JStr (lit "event");
        url := getStoreEndpointWithUrlEncodedAuth api |},
     event, []).

(** [sessionToSentryRequest(session, api)] *)
Definition sessionToSentryRequest (sent_at : jsstring) (session : Event)
           (api : API) : SentryRequest :=
  let envelopeHeaders := stringify_object [(lit "sent_at", JStr sent_at)] in
  let itemHeaders := stringify_object [(lit "type", JStr (lit "session"))] in
  {| body := envelopeHeaders ++ [newline] ++ itemHeaders ++ [newline]
             ++ stringify_object session;
     type := JStr (lit "session");
     url := getEnvelopeEndpointWithUrlEncodedAuth api |}.

End Request.
Import Request.

(* ================================================================= *)
(** ** packages/tracing/src/transaction.ts *)

Module Tracing.

(** The fields of [TransactionContext] read by this code. *)
Record TransactionContext := mkContext {
  ctx_name : option jsstring;
  ctx_traceId : option jsstring;
  ctx_spanId : option jsstring;
  ctx_parentSpanId : option jsstring;
  ctx_sampled : option bool;
  ctx_parentSampled : option bool;
  ctx_op : option jsstring;
  ctx_description : option jsstring;
  ctx_status : option jsstring;
  ctx_tags : list (jsstring * jsstring);
  ctx_startTimestamp : option jsnum;
  ctx_trimEnd : option bool;
  ctx_tracestate : option jsstring
}.

(** What the sampling callback receives. *)
Record SamplingContext := mkSamplingContext {
  sc_transactionContext : TransactionContext;
  sc_parentSampled : option bool;
  sc_environmentData : json          (* request or location *)
}.

(** A configured rate, or the value returned by [tracesSampler]: a boolean, a
    number, NaN, or something that is neither a number nor a boolean. *)
Inductive SampleRate :=
| RateBool (b : bool)
| RateNum (q : Q)
| RateNaN
| RateOther.

Record Options := mkOptions {
  environment : option jsstring;
  release : option jsstring;
  tracesSampleRate : option SampleRate;
  tracesSampler : option (SamplingContext -> SampleRate)
}.

Record Dsn := mkDsn {
  user : jsstring                    (* the public key *)
}.

Record Client := mkClient {
  getDsn : option Dsn;
  getOptions : option Options
}.

(** Span (packages/tracing/src/span.ts). *)
Record Span := mkSpan {
  traceId : jsstring;
  spanId : jsstring;
  parentSpanId : option jsstring;
  sampled : option bool;
  op : option jsstring;
  description : option jsstring;
  status : option jsstring;
  tags : list (jsstring * jsstring);
  startTimestamp : jsnum;
  endTimestamp : option jsnum
}.

Definition set_endTimestamp (s : Span) (e : option jsnum) : Span :=
  {| traceId := traceId s; spanId := spanId s; parentSpanId := parentSpanId s;
     sampled := sampled s; op := op s; description := description s;
     status := status s; tags := tags s; startTimestamp := startTimestamp s;
     endTimestamp := e |}.

(** An entry of [spanRecorder.spans]: the array holds references, and one of
    them is the transaction itself. *)
Inductive Recorded :=
| This
| Other (s : Span).

Definition Measurements := list (jsstring * jsnum).

Record TraceContext := mkTraceContext {
  tc_trace_id : jsstring;
  tc_span_id : jsstring;
  tc_parent_span_id : option jsstring;
  tc_op : option jsstring;
  tc_description : option jsstring;
  tc_status : option jsstring
}.

(** The event literal assembled by [finish]. *)
Record TransactionEvent := mkEvent {
  ev_contexts_trace : TraceContext;
  ev_spans : list Span;
  ev_start_timestamp : jsnum;
  ev_tags : list (jsstring * jsstring);
  ev_timestamp : option jsnum;
  ev_tracestate : jsstring;
  ev_transaction : jsstring;
  ev_type : jsstring;
  ev_measurements : option Measurements
}.

(** Modelled from the spec: the hub (package @sentry/hub, not among the
    sources) hands a finished event to the client's capture operation and
    returns the identifier it yields, or none.  [captured] is the sequence of
    events handed over so far, [eventIds n] the identifier given to the n-th
    of them. *)
Record Hub := mkHub {
  getClient : option Client;
  captured : list TransactionEvent;
  eventIds : nat -> option jsstring
}.

Definition captureEvent (h : Hub) (e : TransactionEvent)
  : option jsstring * Hub :=
  (eventIds h (length (captured h)),
   {| getClient := getClient h; captured := captured h ++ [e];
      eventIds := eventIds h |}).

(** Hubs are shared objects: a transaction holds a reference. *)
Definition HubRef := nat.

Record World := mkWorld {
  hubs : HubRef -> Hub;
  currentHub : HubRef;               (* getCurrentHub() *)
  now : jsnum;                       (* timestampWithMs() *)
  fresh_traceId : jsstring;          (* generated identifiers *)
  fresh_spanId : jsstring;
  logs : list LogEntry;
  global : Global                    (* getGlobalObject() *)
}.

Definition write_hub (w : World) (r : HubRef) (h : Hub) : World :=
  {| hubs := fun r' => if Nat.eqb r' r then h else hubs w r';
     currentHub := currentHub w; now := now w;
     fresh_traceId := fresh_traceId w; fresh_spanId := fresh_spanId w;
     logs := logs w; global := global w |}.

Definition logger (w : World) (entry : LogEntry) : World :=
  {| hubs := hubs w; currentHub := currentHub w; now := now w;
     fresh_traceId := fresh_traceId w; fresh_spanId := fresh_spanId w;
     logs := logs w ++ [entry]; global := global w |}.

Record Transaction := mkTransaction {
  span :> Span;
  name : jsstring;
  tracestate : jsstring;
  _measurements : Measurements;
  _hub : HubRef;
  _trimEnd : option bool;
  spanRecorder : option (list Recorded)
}.

Definition with_span (t : Transaction) (s : Span) : Transaction :=
  {| span := s; name := name t; tracestate := tracestate t;
     _measurements := _measurements t; _hub := _hub t; _trimEnd := _trimEnd t;
     spanRecorder := spanRecorder t |}.

(** [setName] *)
Definition setName (t : Transaction) (n : jsstring) : Transaction :=
  {| span := span t; name := n; tracestate := tracestate t;
     _measurements := _measurements t; _hub := _hub t; _trimEnd := _trimEnd t;
     spanRecorder := spanRecorder t |}.

(** [setMeasurements] *)
Definition setMeasurements (t : Transaction) (m : Measurements) : Transaction :=
  {| span := span t; name := name t; tracestate := tracestate t;
     _measurements := m; _hub := _hub t; _trimEnd := _trimEnd t;
     spanRecorder := spanRecorder t |}.

Definition with_tracestate (t : Transaction) (ts : jsstring) : Transaction :=
  {| span := span t; name := name t; tracestate := ts;
     _measurements := _measurements t; _hub := _hub t; _trimEnd := _trimEnd t;
     spanRecorder := spanRecorder t |}.

(** Modelled from the spec: [Span.finish] (span.ts is not among the sources)
    sets endTimestamp, to the argument when one is given and to the current
    time otherwise. *)
Definition Span_finish (s : Span) (endTimestamp : option jsnum) (clock : jsnum)
  : Span :=
  set_endTimestamp s
    (Some (match endTimestamp with Some e => e | None => clock end)).

(** Modelled from the spec: [Span.getTraceContext] (span.ts) gives traceId,
    spanId, parentSpanId, operation, description and status. *)
Definition getTraceContext (s : Span) : TraceContext :=
  {| tc_trace_id := traceId s; tc_span_id := spanId s;
     tc_parent_span_id := parentSpanId s; tc_op := op s;
     tc_description := description s; tc_status := status s |}.

(** [s => s !== this && s.endTimestamp], with the span it lets through. *)
Definition finished_child (r : Recorded) : option Span :=
  match r with
  | This => None
  | Other s => if opt_num_truthy (endTimestamp s) then Some s else None
  end.

Fixpoint filter_finished (spans : list Recorded) : list Span :=
  match spans with
  | [] => []
  | r :: rest =>
      match finished_child r with
      | Some s => s :: filter_finished rest
      | None => filter_finished rest
      end
  end.

(** [this.spanRecorder ? this.spanRecorder.spans.filter(...) : []] *)
Definition finishedSpans (t : Transaction) : list Span :=
  match spanRecorder t with
  | Some spans => filter_finished spans
  | None => []
  end.

(** The callback given to [reduce]. *)
Definition later_span (prev current : Span) : Span :=
  if opt_num_truthy (endTimestamp prev) && opt_num_truthy (endTimestamp current)
  then
    match endTimestamp prev, endTimestamp current with
    | Some p, Some c => if num_gt p c then prev else current
    | _, _ => prev
    end
  else prev.

(** [spans.reduce(f)] without initial value, on a non-empty array. *)
Definition reduce (first : Span) (others : list Span) : Span :=
  fold_left later_span others first.

(** [this._trimEnd && finishedSpans.length > 0] and the assignment it
    guards. *)
Definition trim_end (t : Transaction) (finished : list Span) : Transaction :=
  match _trimEnd t, finished with
  | Some true, first :: others =>
      with_span t (set_endTimestamp t (endTimestamp (reduce first others)))
  | _, _ => t
  end.

Definition unlabeled : jsstring := lit "<unlabeled transaction>".

(** [if (!this.name) { logger.warn(...); this.name = '<unlabeled transaction>' }] *)
Definition ensure_name (this : Transaction) (w : World) : Transaction * World :=
  if negb (str_truthy (name this)) then
    (setName this unlabeled,
     logger w (Warn (lit "Transaction has no name, falling back to `<unlabeled transaction>`.")))
  else (this, w).

(** The event literal, with [measurements] attached when there are some. *)
Definition transactionEvent_of (this : Transaction) (finished : list Span)
  : TransactionEvent :=
  {| ev_contexts_trace := getTraceContext this;
     ev_spans := finished;
     ev_start_timestamp := startTimestamp this;
     ev_tags := tags this;
     ev_timestamp := endTimestamp this;
     ev_tracestate := tracestate this;
     ev_transaction := name this;
     ev_type := lit "transaction";
     ev_measurements :=
       match _measurements this with
       | [] => None
       | m => Some m
       end |}.

(** [finish] from [super.finish(endTimestamp)] on. *)
Definition finish_open (this : Transaction) (endTimestamp_arg : option jsnum)
           (w : World) : option jsstring * Transaction * World :=
  let this := with_span this (Span_finish this endTimestamp_arg (now w)) in
  match sampled this with
  | Some true =>
      let finished := finishedSpans this in
      let this := trim_end this finished in
      let transactionEvent := transactionEvent_of this finished in
      let w :=
        match _measurements this with
        | [] => w
        | _ => logger w (Log (lit "[Measurements] Adding measurements to transaction"))
        end in
      let '(id, hub) := captureEvent (hubs w (_hub this)) transactionEvent in
      (id, this, write_hub w (_hub this) hub)
  | _ =>
      (None, this,
       logger w (Log (lit "[Tracing] Discarding transaction because its trace was not chosen to be sampled.")))
  end.

(** [finish(endTimestamp?)]: the returned identifier, the transaction and the
    world after the call. *)
Definition finish (this : Transaction) (endTimestamp_arg : option jsnum)
           (w : World) : option jsstring * Transaction * World :=
  match endTimestamp this with
  | Some _ => (None, this, w)
  | None =>
      let '(this, w) := ensure_name this w in
      finish_open this endTimestamp_arg w
  end.

(** The [try] block of [_getNewTracestate]. *)
Definition encode_tracestate (g : Global) (dataStr : jsstring)
  : SentryError + jsstring :=
  match unicodeToBase64 g dataStr with
  | inr b64 => inr (replace_trailing_pad (lit ".") b64)
  | inl err => inl err
  end.

(** The object serialised by [_getNewTracestate]. *)
Definition tracestate_data (trace_id public_key : jsstring)
           (env rel : option jsstring) : list (jsstring * json) :=
  [(lit "trace_id", JStr trace_id);
   (lit "public_key", JStr public_key);
   (lit "environment",
     JStr (match env with
           | Some e => if str_truthy e then e else lit "no environment specified"
           | None => lit "no environment specified"
           end));
   (lit "release",
     JStr (match rel with
           | Some r => if str_truthy r then r else lit "no release specified"
           | None => lit "no release specified"
           end))].

(** [dataStr]: the serialised object, with the client's environment and
    release ([client.getOptions() || {}]). *)
Definition tracestate_dataStr (this_traceId : jsstring) (client : Client)
           (dsn : Dsn) : jsstring :=
  let '(env, rel) :=
    match getOptions client with
    | Some o => (environment o, release o)
    | None => (None, None)
    end in
  stringify_object (tracestate_data this_traceId (user dsn) env rel).

(** [_getNewTracestate()]: [None] is the [undefined] returned without a
    client or a dsn. *)
Definition _getNewTracestate (this_traceId : jsstring) (this_hub : HubRef)
           (w : World) : option jsstring * World :=
  match getClient (hubs w this_hub) with
  | None => (None, w)
  | Some client =>
      match getDsn client with
      | None => (None, w)
      | Some dsn =>
          let dataStr := tracestate_dataStr this_traceId client dsn in
          match encode_tracestate (global w) dataStr with
          | inr v => (Some v, w)
          | inl err => (Some [], logger w (WarnThrown (ThrownSentryError err)))
          end
      end
  end.

(** Modelled from the spec: the [Span] constructor (span.ts) copies the
    context; traceId and spanId are generated when absent, startTimestamp
    defaults to the current time, endTimestamp is absent until finished. *)
Definition Span_new (c : TransactionContext) (w : World) : Span :=
  {| traceId := match ctx_traceId c with
                | Some t => if str_truthy t then t else fresh_traceId w
                | None => fresh_traceId w
                end;
     spanId := match ctx_spanId c with
               | Some t => if str_truthy t then t else fresh_spanId w
               | None => fresh_spanId w
               end;
     parentSpanId := ctx_parentSpanId c;
     sampled := ctx_sampled c;
     op := ctx_op c;
     description := ctx_description c;
     status := ctx_status c;
     tags := ctx_tags c;
     startTimestamp := match ctx_startTimestamp c with
                       | Some t => if num_truthy t then t else now w
                       | None => now w
                       end;
     endTimestamp := None |}.

Definition things_are_broken : jsstring := lit "things are broken".

(** [new Transaction(transactionContext, hub)]; [hub] is [None] when the
    argument is missing or is not a [Hub]. *)
Definition constructor (transactionContext : TransactionContext)
           (hub : option HubRef) (w : World) : Transaction * World :=
  let base := Span_new transactionContext w in
  let this_hub := match hub with Some h => h | None => currentHub w end in
  let this_name :=
    match ctx_name transactionContext with
    | Some n => if str_truthy n then n else []
    | None => []
    end in
  let '(ts, w) :=
    if opt_str_truthy (ctx_tracestate transactionContext) then
      (match ctx_tracestate transactionContext with
       | Some s => s
       | None => things_are_broken
       end, w)
    else
      let '(fresh, w) := _getNewTracestate (traceId base) this_hub w in
      if opt_str_truthy fresh then
        (match fresh with Some s => s | None => things_are_broken end, w)
      else (things_are_broken, w) in
  ({| span := base; name := this_name; tracestate := ts;
      _measurements := []; _hub := this_hub;
      _trimEnd := ctx_trimEnd transactionContext;
      spanRecorder := None |}, w).

End Tracing.
Import Tracing.

(* ================================================================= *)
(** ** The sampling decision *)

Module Sampler.

(** Modelled from the spec: the validation rule shared by the decision
    function and the fixed rate (packages/tracing/src/hubextensions.ts is not
    among the sources).  Rejected: values that are neither numbers nor
    booleans, NaN, and values outside [0,1]. *)
Definition isValidSampleRate (rate : SampleRate) : bool :=
  match rate with
  | RateBool _ => true
  | RateNum q => Qle_bool 0 q && Qle_bool q 1
  | RateNaN | RateOther => false
  end.

(** Booleans coerce to 1 and 0. *)
Definition probability (rate : SampleRate) : Q :=
  match rate with
  | RateBool true => 1%Q
  | RateNum q => q
  | _ => 0%Q
  end.

(** [random() < p] *)
Definition draw (random p : Q) : bool := negb (Qle_bool p random).

Definition invalid_rate_warning : LogEntry :=
  Warn (lit "[Tracing] Discarding transaction because of invalid sample rate.").

(** A validated rate used as a probability. *)
Definition sample_with (rate : SampleRate) (random : Q) : bool * list LogEntry :=
  if isValidSampleRate rate then (draw random (probability rate), [])
  else (false, [invalid_rate_warning]).

(** Modelled from the spec: the sampler of section 4.1, first matching rule
    wins.  [random] is the value drawn from the shared pseudo-random source,
    [envData] the data supplied by the instrumentation collaborator. *)
Definition resolve (transactionContext : TransactionContext)
           (client : option Client) (envData : json) (random : Q)
  : bool * list LogEntry :=
  match ctx_sampled transactionContext with
  | Some b => (b, [])                                         (* rule 1 *)
  | None =>
      match client with
      | None => (false, [])                                   (* rule 2 *)
      | Some c =>
          let rate := match getOptions c with
                      | Some o => tracesSampleRate o | None => None end in
          let sampler := match getOptions c with
                         | Some o => tracesSampler o | None => None end in
          match sampler, ctx_parentSampled transactionContext, rate with
          | None, _, None => (false, [])                      (* rule 2 *)
          | Some f, _, _ =>                                   (* rule 3 *)
              sample_with
                (f {| sc_transactionContext := transactionContext;
                      sc_parentSampled := ctx_parentSampled transactionContext;
                      sc_environmentData := envData |})
                random
          | None, Some parent, _ => (parent, [])              (* rule 4 *)
          | None, None, Some r => sample_with r random        (* rule 5 *)
          end
      end
  end.

End Sampler.
Import Sampler.


(* ================================================================= *)
(** ** packages/utils/src/string.ts: truncate, snipLine, safeJoin,
       isMatchingPattern *)

Module StringUtils.

(** [str.substr(0, n)]: the length is clamped to the string; NaN counts as
    0. *)
Definition substr0 (str : jsstring) (n : jsnum) : jsstring :=
  match n with
  | NaN => []
  | Num z => firstn (Z.to_nat z) str
  end.

(** [str.length <= max] *)
Definition length_le (str : jsstring) (max : jsnum) : bool :=
  match max with
  | NaN => false
  | Num z => (Z.of_nat (length str) <=? z)%Z
  end.

(** [max === 0] *)
Definition is_zero (max : jsnum) : bool :=
  match max with
  | Num 0 => true
  | _ => false
  end.

(** [truncate(str, max = 0)] on a string; [None] is the omitted argument. *)
Definition truncate (str : jsstring) (max_arg : option jsnum) : jsstring :=
  let max := match max_arg with Some m => m | None => Num 0 end in
  if is_zero max then str
  else if length_le str max then str
  else substr0 str max ++ lit "...".

(** [s.slice(start, end)]: negative positions count from the end, and both
    are clamped to the string. *)
Definition slice (s : jsstring) (start stop : Z) : jsstring :=
  let ll := Z.of_nat (length s) in
  let from := if (start <? 0)%Z then Z.max (ll + start) 0 else Z.min start ll in
  let to := if (stop <? 0)%Z then Z.max (ll + stop) 0 else Z.min stop ll in
  firstn (Z.to_nat (to - from)) (skipn (Z.to_nat from) s).

(** The bounds [start], [end] computed by [snipLine] for a line of length
    [ll] (above 150) and a column. *)
Definition snip_window (ll colno : Z) : Z * Z :=
  let colno := if (colno >? ll)%Z then ll else colno in
  let start := Z.max (colno - 60) 0 in
  let start := if (start <? 5)%Z then 0%Z else start in
  let stop := Z.min (start + 140) ll in
  let stop := if (stop >? ll - 5)%Z then ll else stop in
  let start := if (stop =? ll)%Z then Z.max (stop - 140) 0 else start in
  (start, stop).

Definition snip_before : jsstring := 39%N :: lit "{snip} ".   (* '{snip}  *)
Definition snip_after : jsstring := lit " {snip}".

(** [snipLine(line, colno)].  With a NaN column every comparison is false and
    both bounds are NaN, so a long line is sliced to nothing. *)
Definition snipLine (line : jsstring) (colno : jsnum) : jsstring :=
  let ll := Z.of_nat (length line) in
  if (ll <=? 150)%Z then line
  else
    match colno with
    | NaN => []
    | Num col =>
        let '(start, stop) := snip_window ll col in
        let newLine := slice line start stop in
        let newLine := if (start >? 0)%Z then snip_before ++ newLine else newLine in
        if (stop <? ll)%Z then newLine ++ snip_after else newLine
    end.

Section SafeJoin.

(** The values of the array, and [String(value)]; [None] when the conversion
    throws. *)
Variable Value : Type.
Variable String_ : Value -> option jsstring.

Definition cannot_be_serialized : jsstring := lit "[value cannot be serialized]".

(** The loop filling [output]. *)
Definition safeJoin_output (input : list Value) : list jsstring :=
  List.map (fun value => match String_ value with
                         | Some s => s
                         | None => cannot_be_serialized
                         end) input.

(** [safeJoin(input, delimiter?)]; [input] is [None] when it is not an array,
    and a missing delimiter is [join]'s default comma. *)
Definition safeJoin (input : option (list Value)) (delimiter : option jsstring)
  : jsstring :=
  match input with
  | None => []
  | Some values =>
      join (match delimiter with Some d => d | None => lit "," end)
           (safeJoin_output values)
  end.

End SafeJoin.

(** [s.startsWith(p)] *)
Fixpoint starts_with (p s : jsstring) : bool :=
  match p, s with
  | [], _ => true
  | _ :: _, [] => false
  | a :: p', b :: s' => (a =? b)%N && starts_with p' s'
  end.

(** [s.indexOf(p)]: the first position where [p] occurs, or -1. *)
Fixpoint indexOf (s p : jsstring) : Z :=
  if starts_with p s then 0%Z
  else
    match s with
    | [] => (-1)%Z
    | _ :: rest =>
        let i := indexOf rest p in
        if (i =? -1)%Z then (-1)%Z else (i + 1)%Z
    end.

(** The second argument of [isMatchingPattern]: a regular expression (seen
    through its [test], for an expression without the global or sticky
    flag), a string, or anything else. *)
Inductive Pattern :=
| PatRegExp (test : jsstring -> bool)
| PatString (s : jsstring)
| PatOther.

(** [isMatchingPattern(value, pattern)] *)
Definition isMatchingPattern (value : json) (pattern : Pattern) : bool :=
  match value with
  | JStr v =>
      match pattern with
      | PatRegExp test => test v
      | PatString p => negb (indexOf v p =? -1)%Z
      | PatOther => false
      end
  | _ => false
  end.

End StringUtils.
Import StringUtils.

(* ================================================================= *)
(** ** Well-formed strings *)


(* ================================================================= *)
(** ** Concrete inputs *)

Module Examples.

Definition browser : Global := mkGlobal true true false 65535.
Definition node : Global := mkGlobal false false true 65535.
Definition bare : Global := mkGlobal false false false 65535.

Definition dsn0 : Dsn := {| user := lit "dogsarebadatkeepingsecrets" |}.

Definition options0 : Options :=
  {| environment := Some (lit "dogpark");
     release := Some (lit "off.leash.park");
     tracesSampleRate := Some (RateNum 1);
     tracesSampler := None |}.

Definition client0 : Client :=
  {| getDsn := Some dsn0; getOptions := Some options0 |}.

Definition hub0 : Hub :=
  {| getClient := Some client0; captured := [];
     eventIds := fun _ => Some (lit "7c1f0d3e5a9b4c2d8e6f0a1b2c3d4e5f") |}.

Definition world0 (g : Global) : World :=
  {| hubs := fun _ => hub0; currentHub := 0%nat; now := Num 1700;
     fresh_traceId := lit "12312012123120121231201212312012";
     fresh_spanId := lit "1121201211212012";
     logs := []; global := g |}.

Definition span0 (e : option jsnum) : Span :=
  {| traceId := lit "12312012123120121231201212312012";
     spanId := lit "1121201211212012";
     parentSpanId := None; sampled := Some true; op := None;
     description := None; status := None; tags := [];
     startTimestamp := Num 1000; endTimestamp := e |}.

(** An open, sampled, trimming transaction with two finished children (ending
    at 1200 and 1500), one unfinished child and itself in its recorder. *)
Definition tx_trim : Transaction :=
  {| span := span0 None; name := lit "dogpark";
     tracestate := lit "doGsaREgReaT";
     _measurements := []; _hub := 0%nat; _trimEnd := Some true;
     spanRecorder :=
       Some [This; Other (span0 (Some (Num 1200))); Other (span0 None);
             Other (span0 (Some (Num 1500)))] |}.

(** The same transaction, not sampled. *)
Definition tx_unsampled : Transaction :=
  with_span tx_trim
    {| traceId := traceId tx_trim; spanId := spanId tx_trim;
       parentSpanId := None; sampled := Some false; op := None;
       description := None; status := None; tags := [];
       startTimestamp := Num 1000; endTimestamp := None |}.

(** The same transaction, already finished at 1300. *)
Definition tx_finished : Transaction := with_span tx_trim (span0 (Some (Num 1300))).

(** A transaction event as [finish] hands it over, with the tracestate of the
    hub tests. *)
Definition event_tx (tracestate_value : jsstring) : Event :=
  [(lit "contexts",
     JObj [(lit "trace",
             JObj [(lit "trace_id", JStr (lit "12312012123120121231201212312012"));
                   (lit "span_id", JStr (lit "1121201211212012"))])]);
   (lit "spans", JArr []);
   (lit "start_timestamp", JNum (Num 1000));
   (lit "tags", JObj []);
   (lit "timestamp", JNum (Num 1500));
   (lit "tracestate", JStr tracestate_value);
   (lit "transaction", JStr (lit "dogpark"));
   (lit "type", JStr (lit "transaction"))].

(** An error event: no [type]. *)
Definition event_error : Event :=
  [(lit "event_id", JStr (lit "7c1f0d3e5a9b4c2d8e6f0a1b2c3d4e5f"));
   (lit "message", JStr (lit "squirrel!"));
   (lit "level", JStr (lit "error"))].

Definition api0 : API :=
  {| getStoreEndpointWithUrlEncodedAuth :=
       lit "https://squirrelchasers.ingest.sentry.io/api/12312012/store/?sentry_key=dogsarebadatkeepingsecrets&sentry_version=7";
     getEnvelopeEndpointWithUrlEncodedAuth :=
       lit "https://squirrelchasers.ingest.sentry.io/api/12312012/envelope/?sentry_key=dogsarebadatkeepingsecrets&sentry_version=7" |}.

(** The serialised tracestate data of [client0] for the trace of [span0]:
    140 code units, hence 280 bytes and two padding characters. *)
Definition dataStr0 : jsstring :=
  tracestate_dataStr (lit "12312012123120121231201212312012") client0 dsn0.

(** The context of the inheritance test of hub.test.ts. *)
Definition context_child (parent : option bool) : TransactionContext :=
  {| ctx_name := Some (lit "dogpark"); ctx_traceId := None; ctx_spanId := None;
     ctx_parentSpanId := Some (lit "12312012"); ctx_sampled := None;
     ctx_parentSampled := parent; ctx_op := None; ctx_description := None;
     ctx_status := None; ctx_tags := []; ctx_startTimestamp := None;
     ctx_trimEnd := None; ctx_tracestate := None |}.

(** The same context, with an explicit sampling decision of its own. *)
Definition context_forced : TransactionContext :=
  {| ctx_name := Some (lit "dogpark"); ctx_traceId := None; ctx_spanId := None;
     ctx_parentSpanId := Some (lit "12312012"); ctx_sampled := Some true;
     ctx_parentSampled := Some false; ctx_op := None; ctx_description := None;
     ctx_status := None; ctx_tags := []; ctx_startTimestamp := None;
     ctx_trimEnd := None; ctx_tracestate := None |}.

Definition sent_at0 : jsstring := lit "2021-02-03T09:15:00.000Z".

(** A sampled transaction that does not trim, with one finished child and
    measurements. *)
Definition tx_plain : Transaction :=
  {| span := span0 None; name := [];
     tracestate := lit "doGsaREgReaT";
     _measurements := [(lit "lcp", Num 2500)]; _hub := 1%nat;
     _trimEnd := None;
     spanRecorder := Some [This; Other (span0 (Some (Num 1800)))] |}.

(** A session as it is serialised. *)
Definition session0 : Event :=
  [(lit "sid", JStr (lit "7c1f0d3e5a9b4c2d8e6f0a1b2c3d4e5f"));
   (lit "init", JBool true);
   (lit "status", JStr (lit "ok"));
   (lit "errors", JNum (Num 0))].





Definition tracestate0 : jsstring :=
  match fst (_getNewTracestate (lit "12312012123120121231201212312012") 0%nat
               (world0 browser)) with
  | Some v => v
  | None => []
  end.

(** A source line of 200 characters. *)
Definition long_line : jsstring := repeat 120%N 200.

End Examples.
Import Examples.

(* ================================================================= *)
(** * Properties *)

(** ** Transaction.finish *)

Section FinishFacts.

Lemma finished_child_truthy r s :
  finished_child r = Some s -> opt_num_truthy (endTimestamp s) = true.
Proof.
  destruct r as [|s0]; simpl; [discriminate|].
  destruct (opt_num_truthy (endTimestamp s0)) eqn:E; [|discriminate].
  intros H; injection H as <-; exact E.
Qed.

Lemma filter_finished_truthy spans s :
  In s (filter_finished spans) -> opt_num_truthy (endTimestamp s) = true.
Proof.
  induction spans as [|r rest IH]; simpl; [tauto|].
  destruct (finished_child r) as [s0|] eqn:E; simpl; auto.
  intros [<-|H]; eauto using finished_child_truthy.
Qed.

Lemma truthy_is_number o :
  opt_num_truthy o = true -> exists z, o = Some (Num z) /\ z <> 0%Z.
Proof.
  destruct o as [[|z]|]; simpl; try discriminate.
  intros H; exists z; split; [reflexivity|].
  intros ->; discriminate.
Qed.

(** One step of the reduction keeps the later of two finished spans. *)
Lemma later_span_spec p c zp zc :
  endTimestamp p = Some (Num zp) -> zp <> 0%Z ->
  endTimestamp c = Some (Num zc) -> zc <> 0%Z ->
  endTimestamp (later_span p c) = Some (Num (Z.max zp zc))
  /\ (later_span p c = p \/ later_span p c = c).
Proof.
  intros Hp Hzp Hc Hzc. unfold later_span. rewrite Hp, Hc. simpl.
  destruct (zp =? 0)%Z eqn:E1; [apply Z.eqb_eq in E1; contradiction|].
  destruct (zc =? 0)%Z eqn:E2; [apply Z.eqb_eq in E2; contradiction|].
  simpl. destruct (zc <? zp)%Z eqn:E3.
  - apply Z.ltb_lt in E3. rewrite Hp. split; [f_equal; f_equal; lia | auto].
  - apply Z.ltb_ge in E3. rewrite Hc. split; [f_equal; f_equal; lia | auto].
Qed.

(** The reduction returns one of the spans, and its end is the latest. *)
Lemma reduce_latest others : forall first,
  (forall s, In s (first :: others) -> opt_num_truthy (endTimestamp s) = true) ->
  exists m,
    endTimestamp (reduce first others) = Some m
    /\ In (reduce first others) (first :: others)
    /\ forall s, In s (first :: others) ->
         exists e, endTimestamp s = Some e /\ num_le e m.
Proof.
  unfold reduce.
  induction others as [|c rest IH]; intros first Hall.
  - destruct (truthy_is_number _ (Hall first (or_introl eq_refl))) as (z & Hz & _).
    exists (Num z). simpl. repeat split; auto.
    intros s [<-|[]]. exists (Num z). simpl. split; [assumption|lia].
  - destruct (truthy_is_number _ (Hall first (or_introl eq_refl))) as (zp & Hp & Hzp).
    destruct (truthy_is_number _ (Hall c (or_intror (or_introl eq_refl))))
      as (zc & Hc & Hzc).
    destruct (later_span_spec _ _ Hp Hzp Hc Hzc) as (Hl & Hsel).
    simpl fold_left.
    destruct (IH (later_span first c)) as (m & Hm & Hin & Hmax).
    { intros s [<-|Hs].
      - rewrite Hl. simpl.
        destruct (Z.max zp zc =? 0)%Z eqn:E; [|reflexivity].
        apply Z.eqb_eq in E. destruct (Z.max_spec zp zc) as [[_ Q]|[_ Q]]; lia.
      - apply Hall. right; right; exact Hs. }
    exists m. split; [exact Hm|]. split.
    + destruct Hin as [Hin|Hin].
      * rewrite <- Hin. destruct Hsel as [->| ->]; simpl; auto.
      * right; right; exact Hin.
    + destruct (Hmax _ (or_introl eq_refl)) as (e & He & Hle).
      rewrite Hl in He. injection He as <-.
      intros s [<-|[<-|Hs]].
      * exists (Num zp). split; [assumption|].
        destruct m as [|zm]; simpl in *; [contradiction|lia].
      * exists (Num zc). split; [assumption|].
        destruct m as [|zm]; simpl in *; [contradiction|lia].
      * apply Hmax. right; exact Hs.
Qed.

(** Naming an unnamed transaction touches neither the span, the recorder,
    the hubs nor the clock. *)
Lemma ensure_name_frame this w :
  let '(this1, w1) := ensure_name this w in
  span this1 = span this /\ spanRecorder this1 = spanRecorder this
  /\ _trimEnd this1 = _trimEnd this /\ _hub this1 = _hub this
  /\ hubs w1 = hubs w /\ now w1 = now w.
Proof.
  unfold ensure_name. destruct (negb (str_truthy (name this)));
    simpl; repeat split; reflexivity.
Qed.

End FinishFacts.

(** Every call of [finish] leaves the end timestamp set. *)
Lemma finish_sets_endTimestamp (this : Transaction) arg w :
  endTimestamp (snd (fst (finish this arg w))) <> None.
Proof.
  unfold finish. destruct (endTimestamp this) as [e|] eqn:E.
  - simpl. congruence.
  - destruct (ensure_name this w) as [this1 w1]. unfold finish_open.
    set (this2 := with_span this1 _).
    destruct (sampled this2) as [[|]|]; try (simpl; discriminate).
    unfold trim_end.
    destruct (_trimEnd this2) as [[|]|]; try (simpl; discriminate).
    destruct (finishedSpans this2) as [|first others] eqn:F;
      [simpl; discriminate|].
    destruct (@reduce_latest others first) as (m & Hm & _).
    { intros s Hs. rewrite <- F in Hs. unfold finishedSpans in Hs.
      destruct (spanRecorder this2); [|contradiction].
      eapply filter_finished_truthy; eassumption. }
    simpl. rewrite Hm. discriminate.
Qed.

(** A finished transaction is left alone. *)
Lemma finish_finished_noop (this : Transaction) arg w :
  endTimestamp this <> None -> finish this arg w = (None, this, w).
Proof.
  intros H. unfold finish. destruct (endTimestamp this); [reflexivity|congruence].
Qed.

(** Whatever the first call did, a second call is a no-op. *)
Corollary finish_twice (this : Transaction) a1 a2 w :
  finish (snd (fst (finish this a1 w))) a2 (snd (finish this a1 w))
  = (None, snd (fst (finish this a1 w)), snd (finish this a1 w)).
Proof. apply finish_finished_noop, finish_sets_endTimestamp. Qed.

(** C1.  [finish] is idempotent: on a transaction whose endTimestamp is
    already set the call returns undefined and leaves the transaction and
    the world -- hubs with the events captured so far, log, clock --
    exactly as they were, so the client's captureEvent is not reached. *)
Theorem finish_idempotent (this : Transaction) (arg : option jsnum) (w : World) :
  endTimestamp this <> None ->
  finish this arg w = (None, this, w).
Proof.
  intros Hset. exact (@finish_finished_noop this arg w Hset).
Qed.

Lemma finish_idempotent_witness :
  endTimestamp tx_finished <> None
  /\ finish tx_finished (Some (Num 1900)) (world0 browser)
     = (None, tx_finished, world0 browser).
Proof.
  split; [discriminate|].
  apply (finish_idempotent tx_finished (Some (Num 1900)) (world0 browser)).
  discriminate.
Defined.

(** C2.  First [finish] of a transaction whose [sampled] is not [true]: the
    end timestamp is set (to the argument, or to the clock), nothing is
    returned, and no hub receives an event. *)
Theorem finish_unsampled_discards (this : Transaction) (arg : option jsnum)
        (w : World) :
  endTimestamp this = None ->
  sampled this <> Some true ->
  let '(id, this', w') := finish this arg w in
  id = None
  /\ endTimestamp this' = Some (match arg with Some e => e | None => now w end)
  /\ hubs w' = hubs w
  /\ forall r, captured (hubs w' r) = captured (hubs w r).
Proof.
  intros Hopen Hs. unfold finish. rewrite Hopen.
  pose proof (ensure_name_frame this w) as Hf.
  destruct (ensure_name this w) as [this1 w1].
  destruct Hf as (Hspan & _ & _ & _ & Hhubs & Hnow).
  unfold finish_open.
  assert (Hs1 : sampled (with_span this1 (Span_finish this1 arg (now w1)))
                = sampled this).
  { simpl. rewrite Hspan. reflexivity. }
  rewrite Hs1.
  destruct (sampled this) as [[|]|]; try congruence;
    simpl; rewrite Hnow, Hhubs; repeat split; reflexivity.
Qed.

Lemma finish_unsampled_discards_witness :
  endTimestamp tx_unsampled = None
  /\ sampled tx_unsampled <> Some true
  /\ (let '(id, this', w') := finish tx_unsampled None (world0 browser) in
      id = None
      /\ endTimestamp this' = Some (Num 1700)
      /\ hubs w' = hubs (world0 browser)
      /\ forall r, captured (hubs w' r) = captured (hubs (world0 browser) r)).
Proof.
  split; [reflexivity|]. split; [discriminate|].
  apply (finish_unsampled_discards tx_unsampled None (world0 browser));
    [reflexivity | discriminate].
Defined.

(** C3 (as amended).  A sampled transaction finished with the trim flag set
    and at least one finished child ends at the latest end among its finished
    children: that end belongs to one of them and none of them ends later. *)
Theorem finish_trim_is_latest_child (this : Transaction) (arg : option jsnum)
        (w : World) :
  endTimestamp this = None ->
  sampled this = Some true ->
  _trimEnd this = Some true ->
  finishedSpans this <> [] ->
  exists m,
    endTimestamp (snd (fst (finish this arg w))) = Some m
    /\ (exists child, In child (finishedSpans this) /\ endTimestamp child = Some m)
    /\ (forall child, In child (finishedSpans this) ->
          exists e, endTimestamp child = Some e /\ num_le e m).
Proof.
  intros Hopen Hs Htrim Hne. unfold finish. rewrite Hopen.
  pose proof (ensure_name_frame this w) as Hf.
  destruct (ensure_name this w) as [this1 w1].
  destruct Hf as (Hspan & Hrec & Htr & _ & _ & _).
  unfold finish_open.
  set (this2 := with_span this1 (Span_finish this1 arg (now w1))).
  assert (Hs2 : sampled this2 = Some true) by (simpl; rewrite Hspan; exact Hs).
  assert (Hfin : finishedSpans this2 = finishedSpans this)
    by (unfold finishedSpans; simpl; rewrite Hrec; reflexivity).
  assert (Htr2 : _trimEnd this2 = Some true) by (simpl; congruence).
  rewrite Hs2, Hfin. unfold trim_end. rewrite Htr2.
  destruct (finishedSpans this) as [|first others] eqn:F; [congruence|].
  destruct (@reduce_latest others first) as (m & Hm & Hin & Hmax).
  { intros s Hs'. rewrite <- F in Hs'. unfold finishedSpans in Hs'.
    destruct (spanRecorder this); [|contradiction].
    eapply filter_finished_truthy; eassumption. }
  exists m. split; [|split].
  - destruct (captureEvent _ _) as [id hub]. simpl. exact Hm.
  - exists (reduce first others). split; assumption.
  - exact Hmax.
Qed.

Lemma finish_trim_is_latest_child_witness :
  endTimestamp tx_trim = None
  /\ sampled tx_trim = Some true
  /\ _trimEnd tx_trim = Some true
  /\ finishedSpans tx_trim <> []
  /\ exists m,
    endTimestamp (snd (fst (finish tx_trim (Some (Num 1900)) (world0 browser))))
    = Some m
    /\ (exists child, In child (finishedSpans tx_trim) /\ endTimestamp child = Some m)
    /\ (forall child, In child (finishedSpans tx_trim) ->
          exists e, endTimestamp child = Some e /\ num_le e m).
Proof.
  split; [reflexivity|]. split; [reflexivity|]. split; [reflexivity|].
  split; [discriminate|].
  apply (finish_trim_is_latest_child tx_trim (Some (Num 1900)) (world0 browser));
    try reflexivity; discriminate.
Defined.

(** C3, as stated, fails: finished with end time 1100 while a child ended at
    1500, the transaction ends at 1500 -- the recomputation moved its end
    past the one the call had set. *)
Lemma finish_trim_can_extend :
  endTimestamp tx_trim = None
  /\ sampled tx_trim = Some true
  /\ _trimEnd tx_trim = Some true
  /\ finishedSpans tx_trim <> []
  /\ endTimestamp (Span_finish tx_trim (Some (Num 1100)) (now (world0 browser)))
     = Some (Num 1100)
  /\ endTimestamp (snd (fst (finish tx_trim (Some (Num 1100)) (world0 browser))))
     = Some (Num 1500)
  /\ ~ num_le (Num 1500) (Num 1100).
Proof.
  repeat split; try reflexivity; try discriminate.
  simpl. lia.
Qed.

(** ** JSON.stringify writes a single line *)


Lemma one_line_app a b : one_line (a ++ b) <-> one_line a /\ one_line b.
Proof. apply Forall_app. Qed.

Ltac one_line_lit := repeat (constructor; [discriminate|]); constructor.

Lemma hex_digit_not_newline n : hex_digit n <> newline.
Proof.
  unfold hex_digit, newline. destruct (n <? 10)%N; lia.
Qed.

Lemma unicode_escape_one_line c : one_line (unicode_escape c).
Proof.
  unfold unicode_escape.
  repeat (constructor; [first [discriminate | apply hex_digit_not_newline]|]).
  constructor.
Qed.

Lemma quote_unit_one_line c : one_line (quote_unit c).
Proof.
  unfold quote_unit.
  destruct (c =? 8)%N; [one_line_lit|].
  destruct (c =? 9)%N; [one_line_lit|].
  destruct (c =? 10)%N eqn:Hnl; [one_line_lit|].
  destruct (c =? 12)%N; [one_line_lit|].
  destruct (c =? 13)%N; [one_line_lit|].
  destruct (c =? 34)%N; [one_line_lit|].
  destruct (c =? 92)%N; [one_line_lit|].
  destruct (c <? 32)%N; [apply unicode_escape_one_line|].
  apply N.eqb_neq in Hnl. constructor; [exact Hnl|constructor].
Qed.

Lemma quote_units_one_line_bounded n : forall s,
  (length s <= n)%nat -> one_line (quote_units s).
Proof.
  induction n as [|n IH]; intros s Hlen.
  - destruct s; [constructor | simpl in Hlen; lia].
  - destruct s as [|c rest]; [constructor|]. simpl in Hlen. cbn [quote_units].
    destruct (is_high_surrogate c) eqn:Hh.
    + destruct rest as [|d rest']; [apply unicode_escape_one_line|].
      destruct (is_low_surrogate d) eqn:Hl.
      * unfold is_high_surrogate in Hh. unfold is_low_surrogate in Hl.
        apply andb_prop in Hh as [Hh _]. apply andb_prop in Hl as [Hl _].
        apply N.leb_le in Hh. apply N.leb_le in Hl.
        constructor; [unfold newline; lia|].
        constructor; [unfold newline; lia|].
        apply IH. simpl in Hlen. lia.
      * apply one_line_app. split; [apply unicode_escape_one_line|].
        apply IH. lia.
    + destruct (is_low_surrogate c).
      * apply one_line_app. split; [apply unicode_escape_one_line|].
        apply IH. lia.
      * apply one_line_app. split; [apply quote_unit_one_line|].
        apply IH. lia.
Qed.

Lemma quote_one_line s : one_line (quote s).
Proof.
  unfold quote. constructor; [discriminate|].
  apply one_line_app. split.
  - apply (@quote_units_one_line_bounded (length s)). lia.
  - one_line_lit.
Qed.

Lemma digits_one_line d : one_line (lit (NilEmpty.string_of_uint d)).
Proof.
  induction d; simpl; try (constructor; [discriminate|assumption]).
  constructor.
Qed.

Lemma number_text_one_line n : one_line (number_text n).
Proof.
  destruct n as [|z]; [one_line_lit|].
  unfold number_text, NilZero.string_of_int, NilZero.string_of_uint.
  destruct (Z.to_int z) as [d|d].
  - destruct d; try apply digits_one_line. one_line_lit.
  - change (one_line (45%N :: lit (match d with
                                   | Decimal.Nil => "0"%string
                                   | _ => NilEmpty.string_of_uint d
                                   end))).
    constructor; [discriminate|].
    destruct d; try apply digits_one_line. one_line_lit.
Qed.

Lemma join_one_line sep parts :
  one_line sep -> Forall one_line parts -> one_line (join sep parts).
Proof.
  intros Hsep Hparts. induction Hparts as [|p more Hp Hmore IH]; [constructor|].
  simpl. destruct more as [|q more']; [exact Hp|].
  apply one_line_app. split; [exact Hp|].
  apply one_line_app. split; [exact Hsep|exact IH].
Qed.

Lemma array_text_one_line (ser : json -> option jsstring) items :
  Forall (fun v => forall s, ser v = Some s -> one_line s) items ->
  one_line (array_text ser items).
Proof.
  intros H. unfold array_text.
  apply one_line_app. split; [one_line_lit|].
  apply one_line_app. split; [|one_line_lit].
  apply join_one_line; [one_line_lit|].
  induction H as [|v more Hv _ IH]; simpl; constructor; [|exact IH].
  destruct (ser v) as [t|]; [apply Hv; reflexivity | one_line_lit].
Qed.

Lemma object_text_one_line (ser : json -> option jsstring) props :
  Forall (fun kv => forall s, ser (snd kv) = Some s -> one_line s) props ->
  one_line (object_text ser props).
Proof.
  intros H. unfold object_text.
  apply one_line_app. split; [one_line_lit|].
  apply one_line_app. split; [|one_line_lit].
  apply join_one_line; [one_line_lit|].
  induction H as [|[k v] more Hv _ IH]; [constructor|].
  cbn [flat_map]. cbn [snd] in Hv. destruct (ser v) as [t|]; [|exact IH].
  apply Forall_app. split; [|exact IH].
  constructor; [|constructor].
  apply one_line_app. split; [apply quote_one_line|].
  apply one_line_app. split; [one_line_lit | apply Hv; reflexivity].
Qed.

Lemma stringify_one_line v : forall s, stringify v = Some s -> one_line s.
Proof.
  induction v using json_ind; simpl; intros t Ht; try discriminate;
    injection Ht as <-.
  - one_line_lit.
  - destruct b; one_line_lit.
  - apply number_text_one_line.
  - apply quote_one_line.
  - apply array_text_one_line. assumption.
  - apply object_text_one_line. assumption.
Qed.

Lemma stringify_object_one_line props : one_line (stringify_object props).
Proof.
  apply (@stringify_one_line (JObj props)). reflexivity.
Qed.

(** Splitting at line feeds. *)
Lemma split_lines_one_line a : one_line a -> split_lines a = [a].
Proof.
  induction 1 as [|c rest Hc _ IH]; [reflexivity|].
  simpl. apply N.eqb_neq in Hc. rewrite Hc, IH. reflexivity.
Qed.

Lemma split_lines_app a rest :
  one_line a -> split_lines (a ++ newline :: rest) = a :: split_lines rest.
Proof.
  induction 1 as [|c a' Hc _ IH]; [reflexivity|].
  simpl. apply N.eqb_neq in Hc. rewrite Hc, IH. reflexivity.
Qed.

(** [delete] removes the property and only it. *)
Lemma has_key_delete k props : has_key k (delete k props) = false.
Proof.
  unfold has_key, delete. induction props as [|[k' v] rest IH]; [reflexivity|].
  simpl. destruct (jsstring_eqb k' k) eqn:E; simpl; [exact IH|].
  rewrite E. exact IH.
Qed.

Lemma jsstring_eqb_eq a b : jsstring_eqb a b = true <-> a = b.
Proof.
  unfold jsstring_eqb. destruct (list_eq_dec N.eq_dec a b); split;
    congruence.
Qed.

Lemma get_delete_other k k' props :
  k' <> k -> get k' (delete k props) = get k' props.
Proof.
  intros Hne. unfold delete. induction props as [|[k0 v] rest IH]; [reflexivity|].
  simpl. destruct (jsstring_eqb k0 k) eqn:E; simpl.
  - apply jsstring_eqb_eq in E. subst k0.
    destruct (jsstring_eqb k k') eqn:E'; [|exact IH].
    apply jsstring_eqb_eq in E'. congruence.
  - destruct (jsstring_eqb k0 k'); [reflexivity|exact IH].
Qed.

Lemma join_snoc sep parts x :
  parts <> [] -> join sep (parts ++ [x]) = join sep parts ++ sep ++ x.
Proof.
  induction parts as [|p more IH]; [congruence|]. intros _.
  destruct more as [|q more']; [reflexivity|].
  change (join sep ((p :: q :: more') ++ [x]))
    with (p ++ sep ++ join sep ((q :: more') ++ [x])).
  rewrite IH by discriminate.
  change (join sep (p :: q :: more')) with (p ++ sep ++ join sep (q :: more')).
  rewrite <- !app_assoc. reflexivity.
Qed.

(** The header object of a transaction envelope, when [trace] is a string:
    its text ends with that property. *)
Lemma envelope_header_tail eid sent_at tidv u :
  exists text,
    stringify_object
      [(lit "event_id", eid); (lit "sent_at", JStr sent_at);
       (lit "trace_id", tidv); (lit "trace", JStr u)]
    = text ++ lit "," ++ quote (lit "trace") ++ lit ":" ++ quote u ++ lit "}".
Proof.
  unfold stringify_object, object_text.
  match goal with
  | |- context [flat_map ?f [?a; ?b; ?c; ?d]] =>
      change (flat_map f [a; b; c; d]) with (flat_map f ([a; b; c] ++ [d]));
      rewrite (flat_map_app f [a; b; c] [d]);
      change (flat_map f [d])
        with [quote (lit "trace") ++ lit ":" ++ quote u];
      assert (Hne : flat_map f [a; b; c] <> []);
      [| exists (lit "{" ++ join (lit ",") (flat_map f [a; b; c]));
         rewrite (join_snoc _ _ Hne) ]
  end.
  - cbn [flat_map]. destruct (stringify eid); cbn [stringify app]; discriminate.
  - rewrite <- !app_assoc. reflexivity.
Qed.

(** When [trace] is undefined the property is left out. *)
Lemma envelope_header_no_trace eid sent_at tidv :
  stringify_object
    [(lit "event_id", eid); (lit "sent_at", JStr sent_at);
     (lit "trace_id", tidv); (lit "trace", JUndefined)]
  = stringify_object
      [(lit "event_id", eid); (lit "sent_at", JStr sent_at);
       (lit "trace_id", tidv)].
Proof.
  unfold stringify_object, object_text.
  match goal with
  | |- context [flat_map ?f [?a; ?b; ?c; ?d]] =>
      change (flat_map f [a; b; c; d]) with (flat_map f ([a; b; c] ++ [d]));
      rewrite (flat_map_app f [a; b; c] [d]);
      change (flat_map f [d]) with (@nil jsstring)
  end.
  rewrite app_nil_r. reflexivity.
Qed.

(** ** Envelopes *)

Lemma is_transaction_type event :
  is_transaction event = true ->
  get (lit "type") event = JStr (lit "transaction").
Proof.
  unfold is_transaction. destruct (get (lit "type") event); try discriminate.
  intros H. apply jsstring_eqb_eq in H. congruence.
Qed.

Lemma stringify_object_ends props :
  exists text, stringify_object props = text ++ [125%N].
Proof.
  unfold stringify_object, object_text.
  eexists. rewrite app_assoc. reflexivity.
Qed.

(** The value given to [trace]: the decoded tracestate, the empty string
    when decoding (or the call of [replace], on a truthy value that is not a
    string) throws, nothing when the tracestate is falsy. *)
Lemma decode_tracestate_value g tracestate :
  fst (decode_tracestate g tracestate)
  = match tracestate with
    | JStr (c :: s) =>
        match base64ToUnicode g (replace_first 46 61 (c :: s)) with
        | inr u => JStr u
        | inl _ => JStr []
        end
    | JUndefined | JNull | JStr [] => JUndefined
    | JBool b => if b then JStr [] else JUndefined
    | JNum n => if num_truthy n then JStr [] else JUndefined
    | JArr _ | JObj _ => JStr []
    end.
Proof.
  unfold decode_tracestate.
  destruct tracestate as [| |[|]|n|[|c s]|items|props]; try reflexivity.
  - cbn [json_truthy]. destruct (num_truthy n); reflexivity.
  - cbn [json_truthy str_truthy].
    destruct (base64ToUnicode g (replace_first 46 61 (c :: s))); reflexivity.
Qed.

(** The header of the envelope written out over the event as received. *)
Lemma envelopeHeaders_of_deleted sent_at event trace :
  envelopeHeaders_of sent_at (delete (lit "tracestate") event) trace
  = stringify_object
      [(lit "event_id", get (lit "event_id") event);
       (lit "sent_at", JStr sent_at);
       (lit "trace_id",
         opt_chain (opt_chain (get (lit "contexts") event) (lit "trace"))
                   (lit "trace_id"));
       (lit "trace", trace)].
Proof.
  unfold envelopeHeaders_of.
  rewrite !get_delete_other by discriminate. reflexivity.
Qed.

(** C7.  The body of a transaction request is three lines separated by
    single line feeds, without trailing line feed.  The first is the JSON
    text of the envelope header {event_id, sent_at, trace_id, trace}, where
    [trace] is the decoded tracestate of the event (the empty string when the
    decoding throws, left out when the event has no tracestate), so that a
    header with a [trace] ends in that property; the second is the item
    header [{"type":"transaction"}]; the third is the serialised event, which
    no longer has a [tracestate] property. *)
Theorem transaction_request_three_lines (g : Global) (sent_at : jsstring)
        (event : Event) (api : API) :
  is_transaction event = true ->
  let '(req, event', _) := transactionToSentryRequest g sent_at event api in
  let trace :=
    match get (lit "tracestate") event with
    | JStr (c :: s) =>
        match base64ToUnicode g (replace_first 46 61 (c :: s)) with
        | inr u => JStr u
        | inl _ => JStr []
        end
    | JUndefined | JNull | JStr [] => JUndefined
    | JBool b => if b then JStr [] else JUndefined
    | JNum n => if num_truthy n then JStr [] else JUndefined
    | JArr _ | JObj _ => JStr []
    end in
  let envelopeHeaders :=
    stringify_object
      [(lit "event_id", get (lit "event_id") event);
       (lit "sent_at", JStr sent_at);
       (lit "trace_id",
         opt_chain (opt_chain (get (lit "contexts") event) (lit "trace"))
                   (lit "trace_id"));
       (lit "trace", trace)] in
  event' = delete (lit "tracestate") event
  /\ has_key (lit "tracestate") event' = false
  /\ body req = envelopeHeaders ++ [newline] ++ transaction_item_header
                ++ [newline] ++ stringify_object event'
  /\ split_lines (body req)
     = [envelopeHeaders; transaction_item_header; stringify_object event']
  /\ last (body req) newline <> newline
  /\ (forall u, trace = JStr u ->
      exists text,
        envelopeHeaders
        = text ++ lit "," ++ quote (lit "trace") ++ lit ":" ++ quote u
          ++ lit "}")
  /\ (trace = JUndefined ->
      envelopeHeaders
      = stringify_object
          [(lit "event_id", get (lit "event_id") event);
           (lit "sent_at", JStr sent_at);
           (lit "trace_id",
             opt_chain (opt_chain (get (lit "contexts") event) (lit "trace"))
                       (lit "trace_id"))]).
Proof.
  intros Htx. unfold transactionToSentryRequest.
  pose proof (decode_tracestate_value g (get (lit "tracestate") event)) as Hval.
  destruct (decode_tracestate g (get (lit "tracestate") event))
    as [tracestateJSON logged].
  cbn [fst] in Hval. rewrite <- Hval. clear Hval.
  cbn [body]. rewrite envelopeHeaders_of_deleted.
  set (event' := delete (lit "tracestate") event).
  set (envelopeHeaders := stringify_object _).
  assert (Hitem : itemHeaders_of event' = transaction_item_header).
  { unfold itemHeaders_of, event'.
    rewrite get_delete_other by discriminate.
    rewrite (is_transaction_type _ Htx). reflexivity. }
  rewrite Hitem.
  split; [reflexivity|]. split; [apply has_key_delete|].
  split; [reflexivity|]. split; [|split; [|split]].
  - change (envelopeHeaders ++ [newline] ++
            transaction_item_header ++ [newline] ++ stringify_object event')
      with (envelopeHeaders ++ newline ::
            (transaction_item_header ++ newline :: stringify_object event')).
    rewrite split_lines_app by apply stringify_object_one_line.
    rewrite split_lines_app by (vm_compute; one_line_lit).
    rewrite split_lines_one_line by apply stringify_object_one_line.
    reflexivity.
  - destruct (stringify_object_ends event') as [text ->].
    rewrite !app_assoc. rewrite last_last. discriminate.
  - intros u ->. apply envelope_header_tail.
  - intros ->. apply envelope_header_no_trace.
Qed.

Lemma transaction_request_three_lines_witness :
  is_transaction (event_tx (lit "doGsaREgReaT")) = true
  /\ (let '(req, event', _) :=
        transactionToSentryRequest browser sent_at0
          (event_tx (lit "doGsaREgReaT")) api0 in
      let trace :=
        match get (lit "tracestate") (event_tx (lit "doGsaREgReaT")) with
        | JStr (c :: s) =>
            match base64ToUnicode browser (replace_first 46 61 (c :: s)) with
            | inr u => JStr u
            | inl _ => JStr []
            end
        | JUndefined | JNull | JStr [] => JUndefined
        | JBool b => if b then JStr [] else JUndefined
        | JNum n => if num_truthy n then JStr [] else JUndefined
        | JArr _ | JObj _ => JStr []
        end in
      let envelopeHeaders :=
        stringify_object
          [(lit "event_id", get (lit "event_id") (event_tx (lit "doGsaREgReaT")));
           (lit "sent_at", JStr sent_at0);
           (lit "trace_id",
             opt_chain (opt_chain (get (lit "contexts")
                                       (event_tx (lit "doGsaREgReaT")))
                                  (lit "trace"))
                       (lit "trace_id"));
           (lit "trace", trace)] in
      event' = delete (lit "tracestate") (event_tx (lit "doGsaREgReaT"))
      /\ has_key (lit "tracestate") event' = false
      /\ body req = envelopeHeaders ++ [newline] ++ transaction_item_header
                    ++ [newline] ++ stringify_object event'
      /\ split_lines (body req)
         = [envelopeHeaders; transaction_item_header; stringify_object event']
      /\ last (body req) newline <> newline
      /\ (forall u, trace = JStr u ->
          exists text,
            envelopeHeaders
            = text ++ lit "," ++ quote (lit "trace") ++ lit ":" ++ quote u
              ++ lit "}")
      /\ (trace = JUndefined ->
          envelopeHeaders
          = stringify_object
              [(lit "event_id",
                 get (lit "event_id") (event_tx (lit "doGsaREgReaT")));
               (lit "sent_at", JStr sent_at0);
               (lit "trace_id",
                 opt_chain (opt_chain (get (lit "contexts")
                                           (event_tx (lit "doGsaREgReaT")))
                                      (lit "trace"))
                           (lit "trace_id"))])).
Proof.
  split; [reflexivity|].
  apply (@transaction_request_three_lines
           browser sent_at0 (event_tx (lit "doGsaREgReaT")) api0).
  reflexivity.
Defined.

(** C9.  An event that is not a transaction becomes a flat payload: its body
    is the serialised event on a single line, its url comes from the store
    helper, whereas transactions and sessions take theirs from the envelope
    helper. *)
Theorem event_request_flat (g : Global) (sent_at : jsstring) (event : Event)
        (api : API) :
  is_transaction event = false ->
  let '(req, event', logged) := eventToSentryRequest g sent_at event api in
  body req = stringify_object event
  /\ split_lines (body req) = [stringify_object event]
  /\ url req = getStoreEndpointWithUrlEncodedAuth api
  /\ event' = event
  /\ (forall tx,
        url (fst (fst (transactionToSentryRequest g sent_at tx api)))
        = getEnvelopeEndpointWithUrlEncodedAuth api)
  /\ (forall session,
        url (sessionToSentryRequest sent_at session api)
        = getEnvelopeEndpointWithUrlEncodedAuth api).
Proof.
  intros Hty. unfold eventToSentryRequest. rewrite Hty. cbn [body url].
  split; [reflexivity|].
  split; [apply split_lines_one_line, stringify_object_one_line|].
  split; [reflexivity|]. split; [reflexivity|]. split.
  - intros tx. unfold transactionToSentryRequest.
    destruct (decode_tracestate g (get (lit "tracestate") tx)). reflexivity.
  - reflexivity.
Qed.

Lemma event_request_flat_witness :
  is_transaction event_error = false
  /\ (let '(req, event', logged) :=
        eventToSentryRequest node sent_at0 event_error api0 in
      body req = stringify_object event_error
      /\ split_lines (body req) = [stringify_object event_error]
      /\ url req = getStoreEndpointWithUrlEncodedAuth api0
      /\ event' = event_error
      /\ (forall tx,
            url (fst (fst (transactionToSentryRequest node sent_at0 tx api0)))
            = getEnvelopeEndpointWithUrlEncodedAuth api0)
      /\ (forall session,
            url (sessionToSentryRequest sent_at0 session api0)
            = getEnvelopeEndpointWithUrlEncodedAuth api0)).
Proof.
  split; [reflexivity|].
  apply (@event_request_flat node sent_at0 event_error api0). reflexivity.
Defined.

(** ** The tracestate codec *)

Section Base64Facts.

Lemma is_b64char_b64char i : is_b64char (b64char i) = true.
Proof.
  unfold b64char, is_b64char.
  destruct (i <? 26)%N eqn:E1; [apply N.ltb_lt in E1|apply N.ltb_ge in E1].
  { replace (65 <=? 65 + i)%N with true by (symmetry; apply N.leb_le; lia).
    replace (65 + i <=? 90)%N with true by (symmetry; apply N.leb_le; lia).
    reflexivity. }
  destruct (i <? 52)%N eqn:E2; [apply N.ltb_lt in E2|apply N.ltb_ge in E2].
  { replace (97 <=? 71 + i)%N with true by (symmetry; apply N.leb_le; lia).
    replace (71 + i <=? 122)%N with true by (symmetry; apply N.leb_le; lia).
    rewrite orb_true_r. reflexivity. }
  destruct (i <? 62)%N eqn:E3; [apply N.ltb_lt in E3|apply N.ltb_ge in E3].
  { replace (48 <=? i - 4)%N with true by (symmetry; apply N.leb_le; lia).
    replace (i - 4 <=? 57)%N with true by (symmetry; apply N.leb_le; lia).
    rewrite !orb_true_r. reflexivity. }
  destruct (i =? 62)%N; reflexivity.
Qed.

(** Induction over a byte sequence, three bytes at a time. *)
Lemma triples_ind (A : Type) (P : list A -> Prop) :
  P [] -> (forall a, P [a]) -> (forall a b, P [a; b]) ->
  (forall a b c rest, P rest -> P (a :: b :: c :: rest)) ->
  forall l, P l.
Proof.
  intros H0 H1 H2 H3.
  assert (H : forall l, P l /\ (forall a, P (a :: l)) /\ (forall a b, P (a :: b :: l))).
  { induction l as [|x l (IH0 & IH1 & IH2)]; [auto|].
    split; [apply IH1|]. split; [intros a; apply IH2|].
    intros a b. apply H3, IH0. }
  intros l. apply H.
Qed.

Lemma padding_of_step n : padding_of (3 + n) = padding_of n.
Proof.
  unfold padding_of.
  replace ((3 + n) mod 3)%nat with (n mod 3)%nat; [reflexivity|].
  change (3 + n)%nat with (1 * 3 + n)%nat.
  rewrite Nat.add_comm, Nat.Div0.mod_add. reflexivity.
Qed.

(** An encoding is a run of alphabet characters, four for every three bytes
    begun, the last ones replaced by padding. *)
Lemma encode_bytes_shape bs :
  exists text,
    encode_bytes bs = text ++ padding_of (length bs)
    /\ forallb is_b64char text = true
    /\ (length text + length (padding_of (length bs))
        = 4 * ((length bs + 2) / 3))%nat.
Proof.
  induction bs as [|a|a b|a b c rest (text & Henc & Hal & Hlen)] using triples_ind.
  - exists []. repeat split.
  - eexists [_; _]. cbn [encode_bytes]. split; [reflexivity|].
    split; [|reflexivity]. cbn [forallb]. rewrite !is_b64char_b64char. reflexivity.
  - eexists [_; _; _]. cbn [encode_bytes]. split; [reflexivity|].
    split; [|reflexivity]. cbn [forallb]. rewrite !is_b64char_b64char. reflexivity.
  - eexists (_ :: _ :: _ :: _ :: text). cbn [encode_bytes].
    change (length (a :: b :: c :: rest)) with (3 + length rest)%nat.
    rewrite padding_of_step, Henc. split; [reflexivity|]. split.
    + cbn [forallb]. rewrite !is_b64char_b64char, Hal. reflexivity.
    + cbn [length]. replace (3 + length rest + 2)%nat
        with (1 * 3 + (length rest + 2))%nat by lia.
      rewrite Nat.div_add_l by lia. lia.
Qed.

Lemma byte_mask_lt c : (N.land c 255 < 256)%N.
Proof.
  change 255%N with (N.ones 8). rewrite N.land_ones.
  apply N.mod_lt. discriminate.
Qed.

Lemma utf16le_bytes_are_bytes s :
  forallb (fun c => (c <? 256)%N) (utf16le_bytes s) = true.
Proof.
  induction s as [|c rest IH]; [reflexivity|].
  cbn [utf16le_bytes forallb]. rewrite IH.
  rewrite (proj2 (N.ltb_lt _ _) (byte_mask_lt c)).
  rewrite (proj2 (N.ltb_lt _ _) (byte_mask_lt (N.shiftr c 8))).
  reflexivity.
Qed.

Lemma utf16le_bytes_length s : length (utf16le_bytes s) = (2 * length s)%nat.
Proof. induction s as [|c rest IH]; [reflexivity|]. cbn [utf16le_bytes length]. lia. Qed.

(** [btoa] cannot fail on the bytes of a string. *)
Lemma btoa_utf16le_bytes s :
  btoa (utf16le_bytes s) = inr (encode_bytes (utf16le_bytes s)).
Proof.
  unfold btoa. rewrite utf16le_bytes_are_bytes. reflexivity.
Qed.

(** Both paths produce the same encoding; the conversion fails where the
    bytes do not fit one call of the [btoa] path, or where neither built-in
    exists. *)
Lemma unicodeToBase64_cases g s :
  (unicodeToBase64 g s = inr (encode_bytes (utf16le_bytes s))
   /\ can_encode g s = true)
  \/ (unicodeToBase64 g s = inl (encode_error g)
      /\ can_encode g s = false).
Proof.
  unfold unicodeToBase64, can_encode, encode_error, unicodeToBinary,
    fromCharCode_spread.
  destruct (has_btoa g).
  - destruct (N.of_nat (length (utf16le_bytes s)) <=? max_arguments g)%N.
    + rewrite btoa_utf16le_bytes. left; auto.
    + right; auto.
  - destruct (has_Buffer g); [left; auto | right; auto].
Qed.

Lemma forallb_b64_no_pad text :
  forallb is_b64char text = true -> ~ In pad text.
Proof.
  intros H Hin. rewrite forallb_forall in H. specialize (H _ Hin). discriminate.
Qed.

(** The regular-expression replacement on an encoding. *)
Lemma replace_trailing_pad_encoding rep text p :
  forallb is_b64char text = true ->
  p = [] \/ p = [pad] \/ p = [pad; pad] ->
  replace_trailing_pad rep (text ++ p)
  = text ++ match p with [] => [] | _ => rep end.
Proof.
  intros Hal Hp. induction text as [|c text IH].
  - destruct Hp as [->|[->| ->]]; reflexivity.
  - cbn [forallb] in Hal. apply andb_prop in Hal as [Hc Hal].
    specialize (IH Hal).
    assert (Hne : c <> 61%N) by (intros ->; discriminate).
    change ((c :: text) ++ p) with (c :: (text ++ p)).
    cbn [replace_trailing_pad]. rewrite IH.
    destruct c as [|c]; [reflexivity|].
    repeat (destruct c as [c|c|]; try reflexivity; try congruence).
Qed.

Lemma padding_of_cases n :
  padding_of n = [] \/ padding_of n = [pad] \/ padding_of n = [pad; pad].
Proof.
  unfold padding_of. destruct (n mod 3)%nat as [|[|k]]; auto.
Qed.

End Base64Facts.

(** Shape of an encoded value. *)
Lemma encode_tracestate_shape g dataStr v :
  encode_tracestate g dataStr = inr v ->
  exists text p,
    unicodeToBase64 g dataStr = inr (text ++ p)
    /\ forallb is_b64char text = true
    /\ (p = [] \/ p = [pad] \/ p = [pad; pad])
    /\ v = text ++ match p with [] => [] | _ => lit "." end
    /\ ~ In pad v.
Proof.
  unfold encode_tracestate. intros H.
  destruct (unicodeToBase64_cases g dataStr) as [[Hok _]|[Hko _]];
    rewrite ?Hok, ?Hko in H; [|discriminate].
  injection H as <-.
  destruct (encode_bytes_shape (utf16le_bytes dataStr)) as (text & Henc & Hal & _).
  exists text, (padding_of (length (utf16le_bytes dataStr))).
  pose proof (padding_of_cases (length (utf16le_bytes dataStr))) as Hp.
  rewrite Hok, Henc.
  rewrite (replace_trailing_pad_encoding (lit ".") text Hal Hp).
  repeat split; try assumption.
  intros Hin. apply in_app_or in Hin as [Hin|Hin].
  - exact (forallb_b64_no_pad _ Hal Hin).
  - destruct Hp as [E|[E|E]]; rewrite E in Hin; simpl in Hin;
      intuition discriminate.
Qed.

(** C8.  Whatever the string, a tracestate value that was computed is the
    base64 text with its final run of one or two '=' replaced by a single
    '.', and holds no '=' at all. *)
Theorem tracestate_value_has_no_equals (g : Global) (dataStr v : jsstring) :
  encode_tracestate g dataStr = inr v ->
  exists text p,
    unicodeToBase64 g dataStr = inr (text ++ p)
    /\ forallb is_b64char text = true
    /\ (p = [] \/ p = [pad] \/ p = [pad; pad])
    /\ v = text ++ match p with [] => [] | _ => lit "." end
    /\ ~ In pad v.
Proof.
  intros Henc.
  destruct (encode_tracestate_shape _ _ Henc) as (text & p & H).
  exists text, p. exact H.
Qed.

Lemma tracestate_value_has_no_equals_witness :
  exists v,
    encode_tracestate browser dataStr0 = inr v
    /\ exists text p,
         unicodeToBase64 browser dataStr0 = inr (text ++ p)
         /\ forallb is_b64char text = true
         /\ (p = [] \/ p = [pad] \/ p = [pad; pad])
         /\ v = text ++ match p with [] => [] | _ => lit "." end
         /\ ~ In pad v.
Proof.
  eexists. split; [vm_compute; reflexivity|].
  apply (@tracestate_value_has_no_equals browser dataStr0).
  vm_compute; reflexivity.
Defined.

(** The same, for whatever [_getNewTracestate] returns. *)
Corollary getNewTracestate_has_no_equals tid href w v :
  fst (_getNewTracestate tid href w) = Some v -> ~ In pad v.
Proof.
  unfold _getNewTracestate.
  destruct (getClient (hubs w href)) as [client|]; [|discriminate].
  destruct (getDsn client) as [dsn|]; [|discriminate].
  destruct (encode_tracestate (global w) (tracestate_dataStr tid client dsn))
    as [err|v'] eqn:E; cbn [fst]; intros H; injection H as <-.
  - intros [].
  - destruct (encode_tracestate_shape _ _ E) as (_ & _ & _ & _ & _ & _ & Hno).
    exact Hno.
Qed.

(** ** Recovery from conversion failures *)

Lemma encode_failure_recovered tid href w client dsn err :
  getClient (hubs w href) = Some client ->
  getDsn client = Some dsn ->
  encode_tracestate (global w) (tracestate_dataStr tid client dsn) = inl err ->
  _getNewTracestate tid href w
  = (Some [], logger w (WarnThrown (ThrownSentryError err))).
Proof.
  intros Hc Hd He. unfold _getNewTracestate. rewrite Hc, Hd, He. reflexivity.
Qed.

(** With an empty [trace], the envelope header ends with the property
    [trace] holding the empty string. *)
Lemma envelopeHeaders_empty_trace sent_at event :
  exists text,
    envelopeHeaders_of sent_at event (JStr [])
    = text ++ lit "," ++ quote (lit "trace") ++ lit ":" ++ quote [] ++ lit "}".
Proof.
  unfold envelopeHeaders_of, stringify_object, object_text.
  match goal with
  | |- context [flat_map ?f [?a; ?b; ?c; ?d]] =>
      change (flat_map f [a; b; c; d]) with (flat_map f ([a; b; c] ++ [d]));
      rewrite (flat_map_app f [a; b; c] [d]);
      change (flat_map f [d])
        with [quote (lit "trace") ++ lit ":" ++ quote []];
      assert (Hne : flat_map f [a; b; c] <> []);
      [| exists (lit "{" ++ join (lit ",") (flat_map f [a; b; c]));
         rewrite (join_snoc _ _ Hne) ]
  end.
  - cbn [flat_map]. destruct (stringify (get (lit "event_id") event));
      cbn [stringify app]; discriminate.
  - rewrite <- !app_assoc. reflexivity.
Qed.

Lemma decode_failure_recovered g sent_at event api s err :
  get (lit "tracestate") event = JStr s ->
  s <> [] ->
  base64ToUnicode g (replace_first 46 61 s) = inl err ->
  let '(req, event', logged) := transactionToSentryRequest g sent_at event api in
  logged = [WarnThrown (ThrownSentryError err)]
  /\ body req = envelopeHeaders_of sent_at event' (JStr []) ++ [newline]
                ++ itemHeaders_of event' ++ [newline] ++ stringify_object event'
  /\ exists text,
       envelopeHeaders_of sent_at event' (JStr [])
       = text ++ lit "," ++ quote (lit "trace") ++ lit ":" ++ quote [] ++ lit "}".
Proof.
  intros Hts Hne Herr. unfold transactionToSentryRequest, decode_tracestate.
  rewrite Hts. cbn [json_truthy].
  destruct s as [|c s']; [congruence|]. cbn [str_truthy]. rewrite Herr.
  split; [reflexivity|]. split; [reflexivity|].
  apply envelopeHeaders_empty_trace.
Qed.

(** C6.  A conversion failure is absorbed on both sides.  When the base64
    encoding throws, [_getNewTracestate] logs and returns the empty string.
    When the base64 decoding of [event.tracestate] throws,
    [transactionToSentryRequest] logs and still returns its request, whose
    envelope header carries [trace] as the empty string. *)
Theorem conversion_failure_recovered :
  (forall tid href w client dsn err,
      getClient (hubs w href) = Some client ->
      getDsn client = Some dsn ->
      unicodeToBase64 (global w) (tracestate_dataStr tid client dsn) = inl err ->
      _getNewTracestate tid href w
      = (Some [], logger w (WarnThrown (ThrownSentryError err))))
  /\ (forall g sent_at event api s err,
      get (lit "tracestate") event = JStr s ->
      s <> [] ->
      base64ToUnicode g (replace_first 46 61 s) = inl err ->
      let '(req, event', logged) :=
        transactionToSentryRequest g sent_at event api in
      logged = [WarnThrown (ThrownSentryError err)]
      /\ body req = envelopeHeaders_of sent_at event' (JStr []) ++ [newline]
                    ++ itemHeaders_of event' ++ [newline]
                    ++ stringify_object event'
      /\ exists text,
           envelopeHeaders_of sent_at event' (JStr [])
           = text ++ lit "," ++ quote (lit "trace") ++ lit ":" ++ quote []
             ++ lit "}").
Proof.
  split.
  - intros tid href w client dsn err Hc Hd He.
    apply (encode_failure_recovered tid _ _ Hc Hd).
    unfold encode_tracestate. rewrite He. reflexivity.
  - intros g sent_at event api s err. apply decode_failure_recovered.
Qed.

Lemma conversion_failure_recovered_witness :
  _getNewTracestate (lit "12312012123120121231201212312012") 0%nat (world0 bare)
  = (Some [], logger (world0 bare) (WarnThrown (ThrownSentryError NoConverter)))
  /\ (let '(req, event', logged) :=
        transactionToSentryRequest browser sent_at0 (event_tx (lit "ab.")) api0 in
      logged = [WarnThrown (ThrownSentryError NotBase64)]
      /\ body req = envelopeHeaders_of sent_at0 event' (JStr []) ++ [newline]
                    ++ itemHeaders_of event' ++ [newline]
                    ++ stringify_object event'
      /\ exists text,
           envelopeHeaders_of sent_at0 event' (JStr [])
           = text ++ lit "," ++ quote (lit "trace") ++ lit ":" ++ quote []
             ++ lit "}").
Proof.
  split.
  - apply (proj1 conversion_failure_recovered
             (lit "12312012123120121231201212312012") 0%nat (world0 bare)
             client0 dsn0 NoConverter); reflexivity.
  - apply (proj2 conversion_failure_recovered
             browser sent_at0 (event_tx (lit "ab.")) api0 (lit "ab.") NotBase64);
      [reflexivity | discriminate | reflexivity].
Defined.

(** ** The constructor *)


Lemma constructor_span transactionContext hub w :
  span (fst (constructor transactionContext hub w))
  = Span_new transactionContext w.
Proof.
  unfold constructor. cbn zeta.
  destruct (opt_str_truthy (ctx_tracestate transactionContext)); [reflexivity|].
  destruct (_getNewTracestate _ _ w) as [fresh w'].
  destruct (opt_str_truthy fresh); reflexivity.
Qed.

(** C10.  The tracestate of a constructed transaction is never empty: it is
    the tracestate of the context when that one is truthy; else the freshly
    encoded value when the hub has a client with a dsn and the encoding gave
    a non-empty string; else the fallback ['things are broken']. *)
Theorem constructor_tracestate (transactionContext : TransactionContext)
        (hub : option HubRef) (w : World) :
  let this := fst (constructor transactionContext hub w) in
  let this_hub := match hub with Some h => h | None => currentHub w end in
  tracestate this <> []
  /\ tracestate this =
     match ctx_tracestate transactionContext with
     | Some (c :: s) => c :: s
     | _ =>
         match getClient (hubs w this_hub) with
         | Some client =>
             match getDsn client with
             | Some dsn =>
                 match encode_tracestate (global w)
                         (tracestate_dataStr (traceId this) client dsn) with
                 | inr (c :: v) => c :: v
                 | _ => things_are_broken
                 end
             | None => things_are_broken
             end
         | None => things_are_broken
         end
     end.
Proof.
  cbn zeta. rewrite constructor_span.
  unfold constructor. cbn zeta.
  set (base := Span_new transactionContext w).
  set (this_hub := match hub with Some h => h | None => currentHub w end).
  destruct (ctx_tracestate transactionContext) as [[|c s]|];
    cbn [opt_str_truthy str_truthy fst tracestate];
    try (split; [discriminate|reflexivity]).
  all: unfold _getNewTracestate;
    destruct (getClient (hubs w this_hub)) as [client|].
  all: try (cbn; split; [discriminate|reflexivity]).
  all: destruct (getDsn client) as [dsn|].
  all: try (cbn; split; [discriminate|reflexivity]).
  all: destruct (encode_tracestate (global w)
                   (tracestate_dataStr (traceId base) client dsn)) as [err|[|c v]];
    cbn; split; first [discriminate | reflexivity].
Qed.

(** ** Round trip of the tracestate *)

Section RoundTrip.

Lemma BASE64_REGEX_test_length_bounded n : forall s,
  (length s <= n)%nat -> BASE64_REGEX_test s = true ->
  exists k, length s = (4 * k)%nat.
Proof.
  induction n as [|n IH]; intros s Hlen Ht.
  - destruct s; [exists 0%nat; reflexivity | simpl in Hlen; lia].
  - destruct s as [|a [|b [|c [|d rest]]]]; try discriminate.
    + exists 0%nat. reflexivity.
    + cbn [BASE64_REGEX_test] in Ht.
      destruct (is_b64char a && is_b64char b && is_b64char c && is_b64char d).
      * destruct (IH rest) as [k Hk]; [simpl in Hlen; lia | exact Ht |].
        exists (S k). cbn [length]. lia.
      * destruct rest; [exists 1%nat; reflexivity | discriminate].
Qed.

Lemma BASE64_REGEX_test_length s :
  BASE64_REGEX_test s = true -> exists k, length s = (4 * k)%nat.
Proof. apply (@BASE64_REGEX_test_length_bounded (length s)). lia. Qed.

Lemma replace_first_absent pat rep text tail :
  ~ In pat text ->
  replace_first pat rep (text ++ pat :: tail) = text ++ rep :: tail.
Proof.
  induction text as [|c text IH]; intros Hno.
  - simpl. rewrite N.eqb_refl. reflexivity.
  - simpl. destruct (c =? pat)%N eqn:E.
    + apply N.eqb_eq in E. exfalso. apply Hno. left. exact E.
    + rewrite IH; [reflexivity|]. intros Hin. apply Hno. right. exact Hin.
Qed.

Lemma forallb_b64_no_dot text :
  forallb is_b64char text = true -> ~ In 46%N text.
Proof.
  intros H Hin. rewrite forallb_forall in H. specialize (H _ Hin). discriminate.
Qed.

(** When the serialised data has a length of the form 3k+2, its encoding is
    padded with two '='; the '.' that replaced them is turned into a single
    '=', the result is not base64 and the decoding gives the empty string. *)
Lemma roundtrip_fails_on_double_padding g g' dataStr v :
  (length dataStr mod 3 = 2)%nat ->
  encode_tracestate g dataStr = inr v ->
  decode_tracestate g' (JStr v)
  = (JStr [], [WarnThrown (ThrownSentryError NotBase64)]).
Proof.
  intros Hmod Henc. unfold encode_tracestate in Henc.
  destruct (unicodeToBase64_cases g dataStr) as [[Hok _]|[Hko _]];
    rewrite ?Hok, ?Hko in Henc; [|discriminate].
  injection Henc as <-.
  destruct (encode_bytes_shape (utf16le_bytes dataStr)) as (text & Hsh & Hal & Hlen).
  assert (Hpad : padding_of (length (utf16le_bytes dataStr)) = [pad; pad]).
  { unfold padding_of. rewrite utf16le_bytes_length.
    rewrite Nat.Div0.mul_mod, Hmod. reflexivity. }
  rewrite Hpad in Hsh, Hlen. rewrite Hsh.
  rewrite (replace_trailing_pad_encoding (lit ".") text Hal
             (or_intror (or_intror eq_refl))).
  unfold decode_tracestate.
  assert (Htruthy : json_truthy (JStr (text ++ lit ".")) = true)
    by (destruct text; reflexivity).
  rewrite Htruthy.
  change (lit ".") with [46%N].
  rewrite (@replace_first_absent 46%N 61%N text [] (forallb_b64_no_dot _ Hal)).
  unfold base64ToUnicode.
  destruct (BASE64_REGEX_test (text ++ [61%N])) eqn:Hre; [|reflexivity].
  apply BASE64_REGEX_test_length in Hre as [k Hk].
  rewrite length_app in Hk. cbn [length] in Hk, Hlen. lia.
Qed.

End RoundTrip.

(** C4 fails on the data of the hub tests: environment 'dogpark', release
    'off.leash.park', public key 'dogsarebadatkeepingsecrets' and a 32-digit
    trace id serialise to 140 code units.  The tracestate computed for them
    decodes, in the browser and in node alike, to the empty string and not
    to the serialised record. *)
Theorem tracestate_roundtrip_lost :
  exists v,
    fst (_getNewTracestate (lit "12312012123120121231201212312012") 0%nat
           (world0 browser)) = Some v
    /\ fst (_getNewTracestate (lit "12312012123120121231201212312012") 0%nat
              (world0 node)) = Some v
    /\ decode_tracestate browser (JStr v)
       = (JStr [], [WarnThrown (ThrownSentryError NotBase64)])
    /\ decode_tracestate node (JStr v)
       = (JStr [], [WarnThrown (ThrownSentryError NotBase64)])
    /\ JStr dataStr0 <> JStr [].
Proof.
  eexists. split; [vm_compute; reflexivity|].
  split; [vm_compute; reflexivity|].
  split; [vm_compute; reflexivity|].
  split; [vm_compute; reflexivity|].
  vm_compute. discriminate.
Qed.

(** ** Sampling *)

(** C5 (as amended).  Without decision function, with the fixed rate 1 and a
    context whose parent was not sampled and which does not itself set
    [sampled] to true, the decision is [false], whatever the random draw. *)
Theorem parent_decision_overrides_fixed_rate
        (transactionContext : TransactionContext) (client : Client)
        (options : Options) (envData : json) (random : Q) :
  getOptions client = Some options ->
  tracesSampler options = None ->
  tracesSampleRate options = Some (RateNum 1) ->
  ctx_parentSampled transactionContext = Some false ->
  ctx_sampled transactionContext <> Some true ->
  fst (resolve transactionContext (Some client) envData random) = false.
Proof.
  intros Ho Hs Hr Hp Hc. unfold resolve.
  destruct (ctx_sampled transactionContext) as [[|]|]; try congruence;
    try reflexivity.
  rewrite Ho, Hs, Hr, Hp. reflexivity.
Qed.

Lemma parent_decision_overrides_fixed_rate_witness :
  getOptions client0 = Some options0
  /\ tracesSampler options0 = None
  /\ tracesSampleRate options0 = Some (RateNum 1)
  /\ ctx_parentSampled (context_child (Some false)) = Some false
  /\ ctx_sampled (context_child (Some false)) <> Some true
  /\ fst (resolve (context_child (Some false)) (Some client0) JUndefined 0%Q)
     = false.
Proof.
  repeat (split; [first [reflexivity | discriminate]|]).
  apply (@parent_decision_overrides_fixed_rate
           (context_child (Some false)) client0 options0 JUndefined 0%Q);
    try reflexivity.
  discriminate.
Defined.

(** C5, as stated, fails: a context that sets [sampled] to true itself is
    sampled, although its parent was not, no decision function is configured
    and the fixed rate is 1 -- the explicit decision comes first. *)
Lemma explicit_sampled_overrides_parent :
  getOptions client0 = Some options0
  /\ tracesSampler options0 = None
  /\ tracesSampleRate options0 = Some (RateNum 1)
  /\ ctx_parentSampled context_forced = Some false
  /\ fst (resolve context_forced (Some client0) JUndefined 0%Q) = true.
Proof. repeat split. Qed.

(** The rate alone would have sampled the same transaction. *)
Lemma fixed_rate_one_samples transactionContext client options envData random :
  getOptions client = Some options ->
  tracesSampler options = None ->
  tracesSampleRate options = Some (RateNum 1) ->
  ctx_parentSampled transactionContext = None ->
  ctx_sampled transactionContext = None ->
  (random < 1)%Q ->
  fst (resolve transactionContext (Some client) envData random) = true.
Proof.
  intros Ho Hs Hr Hp Hc Hrand. unfold resolve.
  rewrite Hc, Ho, Hs, Hr, Hp. unfold sample_with. cbn [isValidSampleRate].
  replace (Qle_bool 0 1 && Qle_bool 1 1) with true by reflexivity.
  cbn [fst probability]. unfold draw.
  destruct (Qle_bool 1 random) eqn:E; [|reflexivity].
  apply Qle_bool_iff in E. exfalso. exact (Qlt_not_le _ _ Hrand E).
Qed.

(** ** Where the round trip holds *)

Section RoundTripHolds.

#[local] Unset Implicit Arguments.

(** Checking a property of small numbers by enumeration. *)
Lemma N_below_spec n x : (x < N.of_nat n)%N -> In x (N_below n).
Proof.
  intros Hx. unfold N_below. apply in_map_iff. exists (N.to_nat x).
  split; [apply N2Nat.id|]. apply in_seq. lia.
Qed.

Lemma check1 (P : N -> bool) n :
  forallb P (N_below n) = true -> forall x, (x < N.of_nat n)%N -> P x = true.
Proof.
  intros H x Hx. rewrite forallb_forall in H. apply H, N_below_spec, Hx.
Qed.

Lemma check2 (P : N -> N -> bool) n m :
  forallb (fun x => forallb (P x) (N_below m)) (N_below n) = true ->
  forall x y, (x < N.of_nat n)%N -> (y < N.of_nat m)%N -> P x y = true.
Proof.
  intros H x y Hx Hy.
  apply (check1 (P x) m); [|exact Hy].
  apply (check1 (fun x => forallb (P x) (N_below m)) n H x Hx).
Qed.

Lemma b64val_b64char i : (i < 64)%N -> b64val (b64char i) = i.
Proof.
  intros Hi. apply N.eqb_eq.
  apply (check1 (fun i => b64val (b64char i) =? i)%N 64); [|exact Hi].
  vm_compute. reflexivity.
Qed.

Lemma land_lt_pow2 x k : (N.land x (N.ones k) < 2 ^ k)%N.
Proof.
  rewrite N.land_ones. apply N.mod_lt, N.pow_nonzero. discriminate.
Qed.

Lemma sextet1_lt a : (a < 256)%N -> (sextet1 a < 64)%N.
Proof.
  intros Ha. apply N.ltb_lt.
  apply (check1 (fun a => sextet1 a <? 64)%N 256); [vm_compute; reflexivity|exact Ha].
Qed.

Lemma sextet2_lt a b : (b < 256)%N -> (sextet2 a b < 64)%N.
Proof.
  intros Hb. unfold sextet2.
  pose proof (land_lt_pow2 a 2) as Hx. change (N.ones 2) with 3%N in Hx.
  change (2 ^ 2)%N with 4%N in Hx. revert Hx. generalize (N.land a 3) as x.
  intros x Hx. apply N.ltb_lt.
  apply (check2 (fun x b => N.lor (N.shiftl x 4) (N.shiftr b 4) <? 64)%N 4 256);
    [vm_compute; reflexivity | exact Hx | exact Hb].
Qed.

Lemma sextet3_lt b c : (c < 256)%N -> (sextet3 b c < 64)%N.
Proof.
  intros Hc. unfold sextet3.
  pose proof (land_lt_pow2 b 4) as Hx. change (N.ones 4) with 15%N in Hx.
  change (2 ^ 4)%N with 16%N in Hx. revert Hx. generalize (N.land b 15) as x.
  intros x Hx. apply N.ltb_lt.
  apply (check2 (fun x c => N.lor (N.shiftl x 2) (N.shiftr c 6) <? 64)%N 16 256);
    [vm_compute; reflexivity | exact Hx | exact Hc].
Qed.

Lemma sextet4_lt c : (sextet4 c < 64)%N.
Proof. apply (land_lt_pow2 c 6). Qed.

(** The three bytes read back from the sextets. *)
Lemma byte1_back a b :
  (a < 256)%N -> (b < 256)%N ->
  N.lor (N.shiftl (sextet1 a) 2) (N.shiftr (sextet2 a b) 4) = a.
Proof.
  intros Ha Hb. apply N.eqb_eq.
  apply (check2 (fun a b => N.lor (N.shiftl (sextet1 a) 2)
                              (N.shiftr (sextet2 a b) 4) =? a)%N 256 256);
    [vm_compute; reflexivity | exact Ha | exact Hb].
Qed.

Lemma byte2_back a b c :
  (b < 256)%N -> (c < 256)%N ->
  N.lor (N.shiftl (N.land (sextet2 a b) 15) 4) (N.shiftr (sextet3 b c) 2) = b.
Proof.
  intros Hb Hc. unfold sextet2.
  pose proof (land_lt_pow2 a 2) as Hx. change (N.ones 2) with 3%N in Hx.
  change (2 ^ 2)%N with 4%N in Hx. revert Hx. generalize (N.land a 3) as x.
  intros x Hx. revert c Hc.
  assert (H : forallb (fun c =>
                forallb (fun x =>
                  forallb (fun b =>
                    N.lor (N.shiftl (N.land (N.lor (N.shiftl x 4) (N.shiftr b 4)) 15) 4)
                          (N.shiftr (sextet3 b c) 2) =? b)%N
                    (N_below 256)) (N_below 4)) (N_below 256) = true)
    by (vm_compute; reflexivity).
  intros c Hc. apply N.eqb_eq.
  pose proof (check1 _ 256 H c Hc) as H1. cbv beta in H1.
  exact (check2 (fun x b =>
                   N.lor (N.shiftl (N.land (N.lor (N.shiftl x 4) (N.shiftr b 4)) 15) 4)
                         (N.shiftr (sextet3 b c) 2) =? b)%N 4 256 H1 x b Hx Hb).
Qed.

Lemma byte3_back b c :
  (c < 256)%N ->
  N.lor (N.shiftl (N.land (sextet3 b c) 3) 6) (sextet4 c) = c.
Proof.
  intros Hc. unfold sextet3.
  pose proof (land_lt_pow2 b 4) as Hx. change (N.ones 4) with 15%N in Hx.
  change (2 ^ 4)%N with 16%N in Hx. revert Hx. generalize (N.land b 15) as x.
  intros x Hx. apply N.eqb_eq.
  apply (check2 (fun x c =>
                   N.lor (N.shiftl (N.land (N.lor (N.shiftl x 2) (N.shiftr c 6)) 3) 6)
                         (sextet4 c) =? c)%N 16 256);
    [vm_compute; reflexivity | exact Hx | exact Hc].
Qed.

Lemma Forall_bytes_3 a b c rest :
  Forall (fun x => (x < 256)%N) (a :: b :: c :: rest) ->
  (a < 256)%N /\ (b < 256)%N /\ (c < 256)%N
  /\ Forall (fun x => (x < 256)%N) rest.
Proof.
  intros H. inversion_clear H as [|? ? Ha H1]. inversion_clear H1 as [|? ? Hb H2].
  inversion_clear H2 as [|? ? Hc H3]. auto.
Qed.

(** The text of an encoding carries the bytes, and the encoding is accepted
    by the regular expression. *)
Lemma encode_bytes_decodes bs :
  Forall (fun x => (x < 256)%N) bs ->
  exists text,
    encode_bytes bs = text ++ padding_of (length bs)
    /\ forallb is_b64char text = true
    /\ decode_vals (List.map b64val text) = bs
    /\ BASE64_REGEX_test (encode_bytes bs) = true
    /\ (length text + length (padding_of (length bs))
        = 4 * ((length bs + 2) / 3))%nat.
Proof.
  induction bs as [|a|a b|a b c rest IH] using triples_ind; intros Hb.
  - exists []. repeat split.
  - inversion_clear Hb as [|? ? Ha _].
    exists [b64char (sextet1 a); b64char (sextet2 a 0)].
    cbn [encode_bytes].
    split; [reflexivity|]. split.
    { cbn [forallb]. rewrite !is_b64char_b64char. reflexivity. }
    split.
    { cbn [List.map decode_vals].
      rewrite (b64val_b64char _ (sextet1_lt a Ha)).
      rewrite (b64val_b64char _ (sextet2_lt a 0 eq_refl)).
      rewrite (byte1_back a 0 Ha eq_refl). reflexivity. }
    split; [|reflexivity].
    cbn [BASE64_REGEX_test]. rewrite !is_b64char_b64char. reflexivity.
  - inversion_clear Hb as [|? ? Ha H1]. inversion_clear H1 as [|? ? Hb _].
    exists [b64char (sextet1 a); b64char (sextet2 a b); b64char (sextet3 b 0)].
    cbn [encode_bytes].
    split; [reflexivity|]. split.
    { cbn [forallb]. rewrite !is_b64char_b64char. reflexivity. }
    split.
    { cbn [List.map decode_vals].
      rewrite (b64val_b64char _ (sextet1_lt a Ha)).
      rewrite (b64val_b64char _ (sextet2_lt a b Hb)).
      rewrite (b64val_b64char _ (sextet3_lt b 0 eq_refl)).
      rewrite (byte1_back a b Ha Hb), (byte2_back a b 0 Hb eq_refl). reflexivity. }
    split; [|reflexivity].
    cbn [BASE64_REGEX_test]. rewrite !is_b64char_b64char. reflexivity.
  - apply Forall_bytes_3 in Hb as (Ha & Hb & Hc & Hrest).
    destruct (IH Hrest) as (text & Henc & Hal & Hdec & Hre & Hlen).
    exists (b64char (sextet1 a) :: b64char (sextet2 a b)
            :: b64char (sextet3 b c) :: b64char (sextet4 c) :: text).
    change (length (a :: b :: c :: rest)) with (3 + length rest)%nat.
    rewrite padding_of_step.
    change (encode_bytes (a :: b :: c :: rest))
      with (b64char (sextet1 a) :: b64char (sextet2 a b)
            :: b64char (sextet3 b c) :: b64char (sextet4 c) :: encode_bytes rest).
    split; [rewrite Henc; reflexivity|]. split.
    { cbn [forallb]. rewrite !is_b64char_b64char, Hal. reflexivity. }
    split.
    { cbn [List.map decode_vals].
      rewrite (b64val_b64char _ (sextet1_lt a Ha)).
      rewrite (b64val_b64char _ (sextet2_lt a b Hb)).
      rewrite (b64val_b64char _ (sextet3_lt b c Hc)).
      rewrite (b64val_b64char _ (sextet4_lt c)).
      rewrite (byte1_back a b Ha Hb), (byte2_back a b c Hb Hc),
        (byte3_back b c Hc), Hdec. reflexivity. }
    split.
    { cbn [BASE64_REGEX_test]. rewrite !is_b64char_b64char. exact Hre. }
    cbn [length]. replace (3 + length rest + 2)%nat
      with (1 * 3 + (length rest + 2))%nat by lia.
    rewrite Nat.div_add_l by lia. lia.
Qed.

Lemma whitespace_not_b64 c :
  is_ascii_whitespace c = true -> is_b64char c = false /\ c <> pad.
Proof.
  unfold is_ascii_whitespace. rewrite !orb_true_iff, !N.eqb_eq.
  intros [[[[->| ->]| ->]| ->]| ->]; split; (reflexivity || discriminate).
Qed.

Lemma filter_whitespace_encoding text p :
  forallb is_b64char text = true ->
  p = [] \/ p = [pad] \/ p = [pad; pad] ->
  filter (fun c => negb (is_ascii_whitespace c)) (text ++ p) = text ++ p.
Proof.
  intros Hal Hp. apply forallb_filter_id. rewrite forallb_app.
  apply andb_true_intro. split.
  - rewrite forallb_forall in *. intros c Hc. specialize (Hal c Hc).
    destruct (is_ascii_whitespace c) eqn:E; [|reflexivity].
    apply whitespace_not_b64 in E as [E _]. congruence.
  - destruct Hp as [->|[->| ->]]; reflexivity.
Qed.

Lemma drop_last_pad_snoc t : drop_last_pad (t ++ [pad]) = Some t.
Proof.
  unfold drop_last_pad. rewrite rev_app_distr. cbn [rev app].
  rewrite N.eqb_refl, rev_involutive. reflexivity.
Qed.

Lemma drop_last_pad_text t :
  forallb is_b64char t = true -> drop_last_pad t = None.
Proof.
  intros Hal. unfold drop_last_pad. destruct (rev t) as [|c r] eqn:E; [reflexivity|].
  assert (Hin : In c t) by (apply in_rev; rewrite E; left; reflexivity).
  rewrite forallb_forall in Hal. specialize (Hal c Hin).
  destruct (c =? pad)%N eqn:Ec; [|reflexivity].
  apply N.eqb_eq in Ec. subst c. discriminate.
Qed.

Lemma strip_padding_encoding text p :
  forallb is_b64char text = true ->
  p = [] \/ p = [pad] \/ p = [pad; pad] ->
  strip_padding (text ++ p) = text.
Proof.
  intros Hal [->|[->| ->]]; unfold strip_padding.
  - rewrite app_nil_r, (drop_last_pad_text _ Hal). reflexivity.
  - rewrite drop_last_pad_snoc, (drop_last_pad_text _ Hal). reflexivity.
  - change (text ++ [pad; pad]) with (text ++ [pad] ++ [pad]).
    rewrite app_assoc, !drop_last_pad_snoc. reflexivity.
Qed.

(** [atob] on an encoding. *)
Lemma atob_encoding text p k :
  forallb is_b64char text = true ->
  p = [] \/ p = [pad] \/ p = [pad; pad] ->
  (length text + length p = 4 * k)%nat ->
  atob (text ++ p) = inr (decode_vals (List.map b64val text)).
Proof.
  intros Hal Hp Hlen. unfold atob.
  rewrite (filter_whitespace_encoding text p Hal Hp).
  assert (H0 : (N.of_nat (length (text ++ p)) mod 4 =? 0)%N = true).
  { apply N.eqb_eq. rewrite length_app, Hlen.
    rewrite Nat2N.inj_mul. change (N.of_nat 4) with 4%N.
    rewrite N.mul_comm. apply N.Div0.mod_mul. }
  rewrite H0, (strip_padding_encoding text p Hal Hp).
  assert (H1 : (N.of_nat (length text) mod 4 =? 1)%N = false).
  { apply N.eqb_neq. intros Hbad.
    assert (Hcases : (length p <= 2)%nat)
      by (destruct Hp as [->|[->| ->]]; simpl; lia).
    pose proof (N.Div0.div_mod (N.of_nat (length text)) 4) as Hdm.
    rewrite Hbad in Hdm.
    set (q := (N.of_nat (length text) / 4)%N) in Hdm. lia. }
  rewrite H1, Hal. reflexivity.
Qed.

(** [Buffer.from(s, 'base64')] on an encoding. *)
Lemma buffer_b64_chars_encoding text p :
  forallb is_b64char text = true ->
  p = [] \/ p = [pad] \/ p = [pad; pad] ->
  buffer_b64_chars (text ++ p) = text.
Proof.
  intros Hal Hp. induction text as [|c text IH].
  - destruct Hp as [->|[->| ->]]; reflexivity.
  - cbn [forallb] in Hal. apply andb_prop in Hal as [Hc Hal].
    cbn [app buffer_b64_chars]. rewrite Hc, (IH Hal).
    destruct (c =? pad)%N eqn:E; [|reflexivity].
    apply N.eqb_eq in E. subst c. discriminate.
Qed.

Lemma utf16le_unit_back c :
  (c < 65536)%N ->
  N.lor (N.land c 255) (N.shiftl (N.land (N.shiftr c 8) 255) 8) = c.
Proof.
  intros Hc.
  assert (Hsplit : exists lo hi,
             (lo < 256)%N /\ (hi < 256)%N /\ c = (lo + 256 * hi)%N).
  { exists (c mod 256)%N, (c / 256)%N. split; [apply N.mod_lt; discriminate|].
    split; [apply N.Div0.div_lt_upper_bound; exact Hc|].
    rewrite N.add_comm. apply N.Div0.div_mod. }
  destruct Hsplit as (lo & hi & Hlo & Hhi & ->). apply N.eqb_eq.
  apply (check2 (fun lo hi =>
                   N.lor (N.land (lo + 256 * hi) 255)
                         (N.shiftl (N.land (N.shiftr (lo + 256 * hi) 8) 255) 8)
                   =? lo + 256 * hi)%N 256 256);
    [vm_compute; reflexivity | exact Hlo | exact Hhi].
Qed.

Lemma utf16le_string_bytes s :
  Forall (fun c => (c < 65536)%N) s -> utf16le_string (utf16le_bytes s) = s.
Proof.
  induction 1 as [|c rest Hc _ IH]; [reflexivity|].
  cbn [utf16le_bytes utf16le_string]. rewrite (utf16le_unit_back c Hc), IH.
  reflexivity.
Qed.

Lemma utf16le_bytes_Forall s : Forall (fun x => (x < 256)%N) (utf16le_bytes s).
Proof.
  induction s as [|c rest IH]; [constructor|].
  cbn [utf16le_bytes]. repeat constructor; try apply byte_mask_lt. exact IH.
Qed.

Lemma mask_bytes_id bs :
  Forall (fun x => (x < 256)%N) bs -> List.map (fun c => N.land c 255) bs = bs.
Proof.
  induction 1 as [|b rest Hb _ IH]; [reflexivity|].
  cbn [List.map]. rewrite IH. f_equal.
  change 255%N with (N.ones 8). rewrite N.land_ones. apply N.mod_small. exact Hb.
Qed.

(** [binaryToUnicode] puts the bytes of a string together again, when its
    code units fit one call. *)
Lemma binaryToUnicode_utf16le_bytes g s :
  Forall (fun c => (c < 65536)%N) s ->
  (N.of_nat (length s) <= max_arguments g)%N ->
  binaryToUnicode g (utf16le_bytes s) = inr s.
Proof.
  intros Hs Hfit. unfold binaryToUnicode, fromCharCode_spread.
  rewrite (mask_bytes_id _ (utf16le_bytes_Forall s)), utf16le_bytes_length.
  rewrite Nat.even_mul. cbn [Nat.even orb].
  rewrite (utf16le_string_bytes s Hs).
  apply N.leb_le in Hfit. rewrite Hfit. reflexivity.
Qed.




End RoundTripHolds.

(* ================================================================= *)
(** * Further properties *)

(** ** truncate *)

Lemma firstn_app_exact (A : Type) n (l1 l2 : list A) :
  length l1 = n -> firstn n (l1 ++ l2) = l1.
Proof.
  intros <-. rewrite firstn_app, Nat.sub_diag, firstn_all. cbn [firstn].
  apply app_nil_r.
Qed.

(** X1.  [truncate] is idempotent: truncating a truncated string with the
    same limit changes nothing, whatever the limit (absent, zero, negative,
    NaN). *)
Theorem truncate_idempotent (str : jsstring) (max : option jsnum) :
  truncate (truncate str max) max = truncate str max.
Proof.
  unfold truncate. destruct max as [[|z]|]; try reflexivity.
  destruct z as [|p|p]; try reflexivity.
  2:{ cbn [is_zero length_le substr0].
      assert (E : (Z.of_nat (length str) <=? Z.neg p)%Z = false)
        by (apply Z.leb_gt; lia).
      rewrite E. reflexivity. }
  cbn [is_zero length_le substr0].
  destruct (Z.of_nat (length str) <=? Z.pos p)%Z eqn:E.
  - rewrite E. reflexivity.
  - apply Z.leb_gt in E.
    assert (Hlen : length (firstn (Z.to_nat (Z.pos p)) str) = Z.to_nat (Z.pos p))
      by (apply firstn_length_le; lia).
    assert (E' : (Z.of_nat (length (firstn (Z.to_nat (Z.pos p)) str ++ lit "..."))
                  <=? Z.pos p)%Z = false).
    { apply Z.leb_gt. rewrite length_app, Hlen. cbn [lit length]. simpl length. lia. }
    rewrite E'. rewrite (firstn_app_exact _ _ Hlen). reflexivity.
Qed.

(** X2.  With a positive limit [max] the result of [truncate] has at most
    [max + 3] characters and starts with the same [max] characters as the
    input; an input within the limit is returned as it is. *)
Theorem truncate_bounded (str : jsstring) (max : Z) :
  (0 < max)%Z ->
  (Z.of_nat (length (truncate str (Some (Num max)))) <= max + 3)%Z
  /\ firstn (Z.to_nat max) (truncate str (Some (Num max)))
     = firstn (Z.to_nat max) str
  /\ ((Z.of_nat (length str) <= max)%Z -> truncate str (Some (Num max)) = str).
Proof.
  intros Hmax. unfold truncate.
  destruct max as [|p|p]; try lia.
  cbn [is_zero length_le substr0].
  destruct (Z.of_nat (length str) <=? Z.pos p)%Z eqn:E.
  - apply Z.leb_le in E. split; [lia|]. split; reflexivity.
  - apply Z.leb_gt in E.
    assert (Hlen : length (firstn (Z.to_nat (Z.pos p)) str) = Z.to_nat (Z.pos p))
      by (apply firstn_length_le; lia).
    split; [|split].
    + rewrite length_app, Hlen. simpl length. lia.
    + rewrite (firstn_app_exact _ _ Hlen). reflexivity.
    + lia.
Qed.

Lemma truncate_bounded_witness :
  (0 < 5)%Z
  /\ (Z.of_nat (length (truncate (lit "squirrelchasers") (Some (Num 5)))) <= 5 + 3)%Z
  /\ firstn (Z.to_nat 5) (truncate (lit "squirrelchasers") (Some (Num 5)))
     = firstn (Z.to_nat 5) (lit "squirrelchasers")
  /\ ((Z.of_nat (length (lit "squirrelchasers")) <= 5)%Z ->
      truncate (lit "squirrelchasers") (Some (Num 5)) = lit "squirrelchasers").
Proof.
  split; [lia|].
  apply (@truncate_bounded (lit "squirrelchasers") 5). lia.
Defined.

(** ** snipLine *)

Section SnipLine.

(** Bounds of the window kept from a long line. *)
Lemma snip_window_spec ll col :
  (150 < ll)%Z ->
  let '(start, stop) := snip_window ll col in
  (0 <= start)%Z /\ (stop <= ll)%Z /\ (stop - start = 140)%Z
  /\ ((0 <= col)%Z -> (start <= Z.min col ll <= stop)%Z)
  /\ ((0 <= col < ll)%Z -> (col < stop)%Z).
Proof.
  intros Hll. unfold snip_window. rewrite !Z.gtb_ltb.
  destruct (Z.ltb_spec ll col) as [H1|H1];
    match goal with
    | |- context [(Z.max ?a 0 <? 5)%Z] => destruct (Z.ltb_spec (Z.max a 0) 5) as [H2|H2]
    end;
    match goal with
    | |- context [(ll - 5 <? Z.min ?a ll)%Z] =>
        destruct (Z.ltb_spec (ll - 5) (Z.min a ll)) as [H3|H3]
    end;
    match goal with
    | |- context [(?a =? ll)%Z] => destruct (Z.eqb_spec a ll) as [H4|H4]
    end;
    lia.
Qed.

Lemma slice_in_range line start stop :
  (0 <= start <= stop)%Z -> (stop <= Z.of_nat (length line))%Z ->
  slice line start stop
  = firstn (Z.to_nat (stop - start)) (skipn (Z.to_nat start) line)
  /\ Z.of_nat (length (slice line start stop)) = (stop - start)%Z.
Proof.
  intros H1 H2. unfold slice.
  destruct (Z.ltb_spec start 0) as [?|_]; [lia|].
  destruct (Z.ltb_spec stop 0) as [?|_]; [lia|].
  rewrite !Z.min_l by lia. split; [reflexivity|].
  rewrite length_firstn, length_skipn. lia.
Qed.

End SnipLine.

(** X3.  For a line longer than 150 characters and an integer column,
    [snipLine] keeps a window of exactly 140 characters of the line, with the
    marker ['{snip} ] in front when the window does not start the line and
    [ {snip}] behind when it does not end it; the result never exceeds 155
    characters. *)
Theorem snipLine_window (line : jsstring) (col : Z) :
  (150 < Z.of_nat (length line))%Z ->
  let '(start, stop) := snip_window (Z.of_nat (length line)) col in
  snipLine line (Num col)
  = (if (0 <? start)%Z then snip_before else [])
    ++ slice line start stop
    ++ (if (stop <? Z.of_nat (length line))%Z then snip_after else [])
  /\ slice line start stop
     = firstn 140 (skipn (Z.to_nat start) line)
  /\ length (slice line start stop) = 140%nat
  /\ (length (snipLine line (Num col)) <= 155)%nat.
Proof.
  intros Hll. unfold snipLine.
  destruct (Z.leb_spec (Z.of_nat (length line)) 150) as [?|_]; [lia|].
  pose proof (snip_window_spec col Hll) as Hw.
  destruct (snip_window (Z.of_nat (length line)) col) as [start stop].
  destruct Hw as (H0 & H1 & H2 & _ & _).
  destruct (@slice_in_range line start stop) as [Hs Hl]; [lia|lia|].
  rewrite H2 in Hs, Hl. change (Z.to_nat 140) with 140%nat in Hs.
  assert (Hlen : length (slice line start stop) = 140%nat) by lia.
  cbv beta iota zeta. rewrite Z.gtb_ltb.
  destruct (0 <? start)%Z; destruct (stop <? Z.of_nat (length line))%Z;
    (split; [rewrite ?app_nil_r, <- ?app_assoc; reflexivity|]);
    (split; [exact Hs|]); (split; [exact Hlen|]);
    rewrite ?length_app, Hlen; simpl length; lia.
Qed.

Lemma snipLine_window_witness :
  (150 < Z.of_nat (length long_line))%Z
  /\ (let '(start, stop) := snip_window (Z.of_nat (length long_line)) 100 in
      snipLine long_line (Num 100)
      = (if (0 <? start)%Z then snip_before else [])
        ++ slice long_line start stop
        ++ (if (stop <? Z.of_nat (length long_line))%Z then snip_after else [])
      /\ slice long_line start stop
         = firstn 140 (skipn (Z.to_nat start) long_line)
      /\ length (slice long_line start stop) = 140%nat
      /\ (length (snipLine long_line (Num 100)) <= 155)%nat).
Proof.
  split; [vm_compute; reflexivity|].
  apply (@snipLine_window long_line 100). vm_compute. reflexivity.
Defined.

(** X4.  The window kept by [snipLine] contains the column: for a column
    inside a long line, the character at that column is the character at
    [col - start] of the window. *)
Theorem snipLine_keeps_column (line : jsstring) (col : Z) :
  (150 < Z.of_nat (length line))%Z ->
  (0 <= col < Z.of_nat (length line))%Z ->
  let '(start, stop) := snip_window (Z.of_nat (length line)) col in
  (start <= col < stop)%Z
  /\ nth_error (slice line start stop) (Z.to_nat (col - start))
     = nth_error line (Z.to_nat col).
Proof.
  intros Hll Hcol.
  pose proof (snip_window_spec col Hll) as Hw.
  destruct (snip_window (Z.of_nat (length line)) col) as [start stop].
  destruct Hw as (H0 & H1 & H2 & H3 & H4).
  specialize (H3 ltac:(lia)). specialize (H4 Hcol).
  split; [lia|].
  destruct (@slice_in_range line start stop) as [Hs _]; [lia|lia|].
  rewrite Hs, nth_error_firstn, nth_error_skipn.
  replace (Z.to_nat start + Z.to_nat (col - start))%nat with (Z.to_nat col) by lia.
  destruct (Nat.ltb_spec (Z.to_nat (col - start)) (Z.to_nat (stop - start)));
    [reflexivity|lia].
Qed.

Lemma snipLine_keeps_column_witness :
  (150 < Z.of_nat (length long_line))%Z
  /\ (0 <= 190 < Z.of_nat (length long_line))%Z
  /\ (let '(start, stop) := snip_window (Z.of_nat (length long_line)) 190 in
      (start <= 190 < stop)%Z
      /\ nth_error (slice long_line start stop) (Z.to_nat (190 - start))
         = nth_error long_line (Z.to_nat 190)).
Proof.
  split; [vm_compute; reflexivity|]. split; [vm_compute; split; congruence|].
  apply (@snipLine_keeps_column long_line 190);
    [vm_compute; reflexivity | vm_compute; split; congruence].
Defined.

(** ** isMatchingPattern *)

Section IndexOf.

Lemma starts_with_spec p : forall s,
  starts_with p s = true <-> exists post, s = p ++ post.
Proof.
  induction p as [|a p IH]; intros s.
  - simpl. split; [intros _; exists s; reflexivity | reflexivity].
  - destruct s as [|b s]; simpl.
    + split; [discriminate | intros [post H]; discriminate].
    + rewrite andb_true_iff, N.eqb_eq, IH. split.
      * intros [-> [post ->]]. exists post. reflexivity.
      * intros [post H]. injection H as -> ->. split; [reflexivity|].
        exists post. reflexivity.
Qed.

(** [indexOf] finds an occurrence exactly when there is one. *)
Lemma indexOf_spec p : forall s,
  (indexOf s p = (-1)%Z /\ ~ exists pre post, s = pre ++ p ++ post)
  \/ (exists pre post, s = pre ++ p ++ post /\ indexOf s p = Z.of_nat (length pre)).
Proof.
  induction s as [|c rest IH].
  - cbn [indexOf]. destruct (starts_with p []) eqn:E.
    + right. apply starts_with_spec in E as [post E]. exists [], post. auto.
    + left. split; [reflexivity|]. intros (pre & post & H).
      destruct pre; [|discriminate]. simpl in H.
      assert (starts_with p [] = true) by (apply starts_with_spec; eauto).
      congruence.
  - cbn [indexOf]. destruct (starts_with p (c :: rest)) eqn:E.
    + right. apply starts_with_spec in E as [post E]. exists [], post. auto.
    + destruct IH as [[Hi Hno]|(pre & post & Hocc & Hi)].
      * left. rewrite Hi. split; [reflexivity|]. intros (pre & post & H).
        destruct pre as [|x pre].
        -- assert (starts_with p (c :: rest) = true)
             by (apply starts_with_spec; eauto).
           congruence.
        -- injection H as _ H. apply Hno. eauto.
      * right. exists (c :: pre), post. split; [rewrite Hocc; reflexivity|].
        rewrite Hi.
        destruct (Z.eqb_spec (Z.of_nat (length pre)) (-1)) as [?|_]; [lia|].
        cbn [length]. lia.
Qed.

End IndexOf.

(** X5.  With a string pattern, [isMatchingPattern] answers true exactly when
    the value is a string that contains the pattern; in particular the empty
    pattern matches every string, and a value that is not a string matches
    nothing. *)
Theorem isMatchingPattern_substring (value : json) (p : jsstring) :
  isMatchingPattern value (PatString p) = true
  <-> exists v pre post, value = JStr v /\ v = pre ++ p ++ post.
Proof.
  unfold isMatchingPattern. split.
  - destruct value as [| | | |v| |]; try discriminate.
    intros H. apply negb_true_iff, Z.eqb_neq in H.
    destruct (indexOf_spec p v) as [[Hi _]|(pre & post & Hocc & _)]; [congruence|].
    exists v, pre, post. auto.
  - intros (v & pre & post & -> & Hocc).
    apply negb_true_iff, Z.eqb_neq.
    destruct (indexOf_spec p v) as [[_ Hno]|(pre' & post' & _ & Hi)].
    + exfalso. apply Hno. eauto.
    + rewrite Hi. lia.
Qed.

(** ** safeJoin *)

Lemma join_app sep (a b : list jsstring) :
  a <> [] -> b <> [] -> join sep (a ++ b) = join sep a ++ sep ++ join sep b.
Proof.
  intros Ha Hb. induction a as [|p more IH]; [congruence|].
  destruct more as [|q more'].
  - destruct b as [|x b']; [congruence|]. reflexivity.
  - change (join sep ((p :: q :: more') ++ b))
      with (p ++ sep ++ join sep ((q :: more') ++ b)).
    rewrite IH by discriminate.
    change (join sep (p :: q :: more')) with (p ++ sep ++ join sep (q :: more')).
    rewrite <- !app_assoc. reflexivity.
Qed.

(** X6.  [safeJoin] of two non-empty arrays put end to end is the two joined
    results with one delimiter between them, whether or not some values fail
    to convert. *)
Theorem safeJoin_app (Value : Type) (String_ : Value -> option jsstring)
        (a b : list Value) (delimiter : option jsstring) :
  a <> [] -> b <> [] ->
  safeJoin String_ (Some (a ++ b)) delimiter
  = safeJoin String_ (Some a) delimiter
    ++ (match delimiter with Some d => d | None => lit "," end)
    ++ safeJoin String_ (Some b) delimiter.
Proof.
  intros Ha Hb. unfold safeJoin, safeJoin_output. rewrite map_app.
  apply join_app.
  - destruct a; [congruence|discriminate].
  - destruct b; [congruence|discriminate].
Qed.

Lemma safeJoin_app_witness :
  [Some (lit "fetch"); None] <> []
  /\ [Some (lit "ball")] <> []
  /\ safeJoin (fun v : option jsstring => v)
       (Some ([Some (lit "fetch"); None] ++ [Some (lit "ball")])) (Some (lit " "))
     = safeJoin (fun v : option jsstring => v)
         (Some [Some (lit "fetch"); None]) (Some (lit " "))
       ++ lit " "
       ++ safeJoin (fun v : option jsstring => v)
            (Some [Some (lit "ball")]) (Some (lit " ")).
Proof.
  split; [discriminate|]. split; [discriminate|].
  apply (@safeJoin_app (option jsstring) (fun v => v)
           [Some (lit "fetch"); None] [Some (lit "ball")] (Some (lit " ")));
    discriminate.
Defined.

(** ** unicodeToBase64 and base64ToUnicode *)

Section Base64Reject.

Lemma BASE64_REGEX_test_chars_bounded n : forall s,
  (length s <= n)%nat -> BASE64_REGEX_test s = true ->
  Forall (fun c => is_b64char c = true \/ c = pad) s.
Proof.
  induction n as [|n IH]; intros s Hlen Ht.
  - destruct s; [constructor | simpl in Hlen; lia].
  - destruct s as [|a [|b [|c [|d rest]]]]; try discriminate; [constructor|].
    cbn [BASE64_REGEX_test] in Ht.
    destruct (is_b64char a && is_b64char b && is_b64char c && is_b64char d) eqn:E.
    + apply andb_prop in E as [E Hd]. apply andb_prop in E as [E Hc].
      apply andb_prop in E as [Ha Hb].
      repeat (constructor; [left; assumption|]).
      apply IH; [simpl in Hlen; lia | exact Ht].
    + destruct rest; [|discriminate].
      apply andb_prop in Ht as [Ha Ht].
      apply orb_prop in Ht as [Ht|Ht]; [apply orb_prop in Ht as [Ht|Ht]|];
        apply andb_prop in Ht as [Ht Hd]; apply andb_prop in Ht as [Hb Hc];
        repeat match goal with
               | H : (_ =? pad)%N = true |- _ => apply N.eqb_eq in H
               end;
        repeat (constructor; [auto|]); constructor.
Qed.

Lemma BASE64_REGEX_test_chars s :
  BASE64_REGEX_test s = true ->
  Forall (fun c => is_b64char c = true \/ c = pad) s.
Proof. apply (@BASE64_REGEX_test_chars_bounded (length s)). lia. Qed.

End Base64Reject.

Lemma lit_code_units s : Forall (fun c => (c < 65536)%N) (lit s).
Proof.
  unfold lit. apply Forall_forall. intros c Hc.
  apply in_map_iff in Hc as (a & <- & _).
  pose proof (N_ascii_bounded a). lia.
Qed.

(** X7.  Whenever [unicodeToBinary] returns -- the bytes of the string fit
    one call of [String.fromCharCode] -- [binaryToUnicode] on the same host
    gives the string back. *)
Theorem binaryToUnicode_inverts_unicodeToBinary (g : Global)
        (unicodeString binaryString : jsstring) :
  Forall (fun c => (c < 65536)%N) unicodeString ->
  unicodeToBinary g unicodeString = inr binaryString ->
  binaryToUnicode g binaryString = inr unicodeString.
Proof.
  intros Hs H. unfold unicodeToBinary, fromCharCode_spread in H.
  destruct (N.of_nat (length (utf16le_bytes unicodeString)) <=? max_arguments g)%N
    eqn:E; [|discriminate].
  injection H as <-. apply N.leb_le in E. rewrite utf16le_bytes_length in E.
  apply binaryToUnicode_utf16le_bytes; [exact Hs | lia].
Qed.

Lemma binaryToUnicode_inverts_unicodeToBinary_witness :
  exists bin,
    Forall (fun c => (c < 65536)%N) (lit "dogpark")
    /\ unicodeToBinary browser (lit "dogpark") = inr bin
    /\ binaryToUnicode browser bin = inr (lit "dogpark").
Proof.
  eexists. split; [apply lit_code_units|].
  split; [vm_compute; reflexivity|].
  apply (@binaryToUnicode_inverts_unicodeToBinary browser (lit "dogpark"));
    [apply lit_code_units | vm_compute; reflexivity].
Defined.

(** X8.  The failures of [unicodeToBase64]: on the [btoa] path it throws
    exactly when the 2n bytes of the string are more than one call takes
    (the RangeError of the spread, rethrown); without [btoa] it throws
    exactly when there is no [Buffer] either.  [btoa] itself never fails,
    since it only receives bytes. *)
Theorem unicodeToBase64_failure (g : Global) (unicodeString : jsstring)
        (e : SentryError) :
  unicodeToBase64 g unicodeString = inl e
  <-> (has_btoa g = true
       /\ (max_arguments g < N.of_nat (2 * length unicodeString))%N
       /\ e = ConversionFailed RangeError)
      \/ (has_btoa g = false /\ has_Buffer g = false /\ e = NoConverter).
Proof.
  unfold unicodeToBase64, unicodeToBinary, fromCharCode_spread.
  rewrite utf16le_bytes_length.
  destruct (has_btoa g).
  - destruct (N.leb_spec (N.of_nat (2 * length unicodeString)) (max_arguments g))
      as [Hfit|Hbig].
    + rewrite btoa_utf16le_bytes. split; [discriminate|].
      intros [(_ & H & _)|(H & _)]; [lia|discriminate].
    + split.
      * intros H. injection H as <-. left. auto.
      * intros [(_ & _ & ->)|(H & _)]; [reflexivity|discriminate].
  - destruct (has_Buffer g).
    + split; [discriminate|].
      intros [(H & _)|(_ & H & _)]; discriminate.
    + split.
      * intros H. injection H as <-. right. auto.
      * intros [(H & _)|(_ & _ & ->)]; [discriminate|reflexivity].
Qed.



(** X10.  What [unicodeToBase64] returns is accepted by [BASE64_REGEX], is
    made of alphabet characters and '=' only, and has four characters for
    every three bytes begun, a string of n code units being 2n bytes. *)
Theorem unicodeToBase64_output (g : Global) (unicodeString b64 : jsstring) :
  unicodeToBase64 g unicodeString = inr b64 ->
  BASE64_REGEX_test b64 = true
  /\ Forall (fun c => is_b64char c = true \/ c = pad) b64
  /\ length b64 = (4 * ((2 * length unicodeString + 2) / 3))%nat.
Proof.
  intros H.
  destruct (unicodeToBase64_cases g unicodeString) as [[Hok _]|[Hko _]];
    rewrite ?Hok, ?Hko in H; [|discriminate].
  injection H as <-.
  destruct (encode_bytes_decodes _ (utf16le_bytes_Forall unicodeString))
    as (text & Henc & _ & _ & Hre & Hlen).
  split; [exact Hre|]. split; [apply BASE64_REGEX_test_chars, Hre|].
  rewrite Henc, length_app, Hlen, utf16le_bytes_length. reflexivity.
Qed.

Lemma unicodeToBase64_output_witness :
  exists b64,
    unicodeToBase64 node (lit "dogpark") = inr b64
    /\ BASE64_REGEX_test b64 = true
    /\ Forall (fun c => is_b64char c = true \/ c = pad) b64
    /\ length b64 = (4 * ((2 * length (lit "dogpark") + 2) / 3))%nat.
Proof.
  eexists. split; [vm_compute; reflexivity|].
  apply (@unicodeToBase64_output node (lit "dogpark")). vm_compute. reflexivity.
Defined.



(** X12.  [base64ToUnicode] refuses, before any converter is consulted, every
    string whose length is not a multiple of four and every string holding a
    character that is neither in the base64 alphabet nor '='. *)
Theorem base64ToUnicode_rejects (g : Global) (base64String : jsstring) :
  (length base64String mod 4 <> 0)%nat
  \/ (exists c, In c base64String /\ is_b64char c = false /\ c <> pad) ->
  base64ToUnicode g base64String = inl NotBase64.
Proof.
  intros H. unfold base64ToUnicode.
  destruct (BASE64_REGEX_test base64String) eqn:E; [|reflexivity].
  exfalso. destruct H as [Hlen|(c & Hin & Hc & Hp)].
  - apply BASE64_REGEX_test_length in E as [k Hk]. apply Hlen.
    rewrite Hk, Nat.mul_comm. apply Nat.Div0.mod_mul.
  - apply BASE64_REGEX_test_chars in E. rewrite Forall_forall in E.
    destruct (E c Hin); congruence.
Qed.

Lemma base64ToUnicode_rejects_witness :
  ((length (lit "doGsaREgReaT=") mod 4 <> 0)%nat
   \/ (exists c, In c (lit "doGsaREgReaT=") /\ is_b64char c = false /\ c <> pad))
  /\ base64ToUnicode browser (lit "doGsaREgReaT=") = inl NotBase64.
Proof.
  split; [left; vm_compute; discriminate|].
  apply (@base64ToUnicode_rejects browser (lit "doGsaREgReaT=")).
  left. vm_compute. discriminate.
Defined.

(** X13.  Valid base64 that carries an odd number of bytes divides the hosts:
    for any four alphabet characters (three bytes), the [atob] path throws
    -- the 16-bit view cannot be laid over three bytes -- while the [Buffer]
    path returns the single code unit of the first two bytes. *)
Theorem base64ToUnicode_odd_bytes (g : Global) (a b c d : N) :
  is_b64char a = true -> is_b64char b = true ->
  is_b64char c = true -> is_b64char d = true ->
  (has_atob g = true ->
   base64ToUnicode g [a; b; c; d] = inl (ConversionFailed RangeError))
  /\ (has_atob g = false -> has_Buffer g = true ->
      exists u, base64ToUnicode g [a; b; c; d] = inr [u]).
Proof.
  intros Ha Hb Hc Hd.
  assert (Hal : forallb is_b64char [a; b; c; d] = true)
    by (cbn [forallb]; rewrite Ha, Hb, Hc, Hd; reflexivity).
  assert (Hre : BASE64_REGEX_test [a; b; c; d] = true)
    by (cbn [BASE64_REGEX_test]; rewrite Ha, Hb, Hc, Hd; reflexivity).
  unfold base64ToUnicode. rewrite Hre. cbn [negb]. split.
  - intros ->.
    pose proof (atob_encoding [a; b; c; d] [] 1 Hal (or_introl eq_refl) eq_refl) as Hat.
    rewrite app_nil_r in Hat. rewrite Hat. reflexivity.
  - intros -> ->. unfold buffer_from_base64.
    pose proof (buffer_b64_chars_encoding [a; b; c; d] [] Hal (or_introl eq_refl)) as Hbuf.
    rewrite app_nil_r in Hbuf. rewrite Hbuf.
    cbn [List.map decode_vals utf16le_string]. eexists. reflexivity.
Qed.

Lemma base64ToUnicode_odd_bytes_witness :
  is_b64char 65 = true /\ is_b64char 66 = true
  /\ is_b64char 67 = true /\ is_b64char 68 = true
  /\ (has_atob browser = true ->
      base64ToUnicode browser [65; 66; 67; 68]%N
      = inl (ConversionFailed RangeError))
  /\ (has_atob browser = false -> has_Buffer browser = true ->
      exists u, base64ToUnicode browser [65; 66; 67; 68]%N = inr [u]).
Proof.
  repeat (split; [reflexivity|]).
  apply (@base64ToUnicode_odd_bytes browser 65 66 67 68); reflexivity.
Defined.

(** ** Transaction.finish, sampled *)

Section FinishSampled.

(** What a sampled, open transaction is after [finish], and the event handed
    to its hub. *)
Lemma finish_sampled_result (this : Transaction) arg w :
  endTimestamp this = None ->
  sampled this = Some true ->
  exists this1 w1 this',
    ensure_name this w = (this1, w1)
    /\ this' = trim_end (with_span this1 (Span_finish this1 arg (now w1)))
                        (finishedSpans this)
    /\ finish this arg w
       = (eventIds (hubs w (_hub this)) (length (captured (hubs w (_hub this)))),
          this',
          write_hub
            (match _measurements this with
             | [] => w1
             | _ => logger w1 (Log (lit "[Measurements] Adding measurements to transaction"))
             end)
            (_hub this)
            (snd (captureEvent (hubs w (_hub this))
                    (transactionEvent_of this' (finishedSpans this))))).
Proof.
  intros Hopen Hs. unfold finish. rewrite Hopen.
  pose proof (ensure_name_frame this w) as Hf.
  assert (Hm : _measurements (fst (ensure_name this w)) = _measurements this)
    by (unfold ensure_name; destruct (negb (str_truthy (name this))); reflexivity).
  destruct (ensure_name this w) as [this1 w1]. cbn [fst] in Hm.
  destruct Hf as (Hspan & Hrec & Htr & Hhub & Hhubs & Hnow).
  exists this1, w1, (trim_end (with_span this1 (Span_finish this1 arg (now w1)))
                             (finishedSpans this)).
  split; [reflexivity|]. split; [reflexivity|].
  unfold finish_open.
  set (this2 := with_span this1 (Span_finish this1 arg (now w1))).
  assert (Hs2 : sampled this2 = Some true) by (simpl; rewrite Hspan; exact Hs).
  assert (Hfin : finishedSpans this2 = finishedSpans this)
    by (unfold finishedSpans; simpl; rewrite Hrec; reflexivity).
  rewrite Hs2, Hfin.
  set (this3 := trim_end this2 (finishedSpans this)).
  assert (H3 : _measurements this3 = _measurements this /\ _hub this3 = _hub this).
  { unfold this3, trim_end. destruct (_trimEnd this2) as [[|]|];
      destruct (finishedSpans this); simpl; auto. }
  destruct H3 as [Hm3 Hh3]. rewrite Hm3, Hh3.
  assert (Hw : hubs (match _measurements this with
                     | [] => w1
                     | _ :: _ => logger w1 (Log (lit "[Measurements] Adding measurements to transaction"))
                     end) = hubs w)
    by (destruct (_measurements this); simpl; exact Hhubs).
  rewrite Hw. reflexivity.
Qed.

Lemma ensure_name_fields (this : Transaction) w :
  name (fst (ensure_name this w))
  = (if str_truthy (name this) then name this else unlabeled)
  /\ tracestate (fst (ensure_name this w)) = tracestate this
  /\ _measurements (fst (ensure_name this w)) = _measurements this
  /\ span (fst (ensure_name this w)) = span this.
Proof.
  unfold ensure_name. destruct (str_truthy (name this)); simpl; auto.
Qed.

Lemma trim_end_fields (t : Transaction) finished :
  name (trim_end t finished) = name t
  /\ tracestate (trim_end t finished) = tracestate t
  /\ _measurements (trim_end t finished) = _measurements t
  /\ _hub (trim_end t finished) = _hub t
  /\ _trimEnd (trim_end t finished) = _trimEnd t
  /\ spanRecorder (trim_end t finished) = spanRecorder t
  /\ traceId (trim_end t finished) = traceId t
  /\ spanId (trim_end t finished) = spanId t
  /\ parentSpanId (trim_end t finished) = parentSpanId t
  /\ sampled (trim_end t finished) = sampled t
  /\ startTimestamp (trim_end t finished) = startTimestamp t
  /\ tags (trim_end t finished) = tags t.
Proof.
  destruct t as [sp nm ts ms hb tr rc]. unfold trim_end. simpl.
  destruct tr as [[|]|]; destruct finished; simpl; repeat split; reflexivity.
Qed.

End FinishSampled.

(** X14.  Finishing an open, sampled transaction hands exactly one event to
    the hub the transaction is bound to and returns the identifier that hub
    gives it; every other hub, and the hub's client, are left as they were. *)
Theorem finish_sampled_dispatches_once (this : Transaction)
        (arg : option jsnum) (w : World) :
  endTimestamp this = None ->
  sampled this = Some true ->
  let '(id, this', w') := finish this arg w in
  let h := hubs w (_hub this) in
  id = eventIds h (length (captured h))
  /\ (exists ev, captured (hubs w' (_hub this)) = captured h ++ [ev])
  /\ getClient (hubs w' (_hub this)) = getClient h
  /\ (forall r, r <> _hub this -> hubs w' r = hubs w r).
Proof.
  intros Hopen Hs.
  destruct (finish_sampled_result this arg w Hopen Hs)
    as (this1 & w1 & this' & Hen & _ & ->).
  pose proof (ensure_name_frame this w) as Hf. rewrite Hen in Hf.
  destruct Hf as (_ & _ & _ & _ & Hhubs & _).
  cbv zeta. split; [reflexivity|].
  assert (Hw : forall w2 : World, hubs w2 = hubs w ->
            forall h r, hubs (write_hub w2 (_hub this) h) r
                        = if Nat.eqb r (_hub this) then h else hubs w r)
    by (intros w2 E h r; simpl; rewrite E; reflexivity).
  assert (Hw2 : hubs (match _measurements this with
                      | [] => w1
                      | _ :: _ => logger w1 (Log (lit "[Measurements] Adding measurements to transaction"))
                      end) = hubs w)
    by (destruct (_measurements this); simpl; exact Hhubs).
  split; [|split].
  - eexists. rewrite (Hw _ Hw2), Nat.eqb_refl. reflexivity.
  - rewrite (Hw _ Hw2), Nat.eqb_refl. reflexivity.
  - intros r Hr. rewrite (Hw _ Hw2).
    destruct (Nat.eqb_spec r (_hub this)); [contradiction|reflexivity].
Qed.

Lemma finish_sampled_dispatches_once_witness :
  endTimestamp tx_trim = None
  /\ sampled tx_trim = Some true
  /\ (let '(id, this', w') := finish tx_trim None (world0 node) in
      let h := hubs (world0 node) (_hub tx_trim) in
      id = eventIds h (length (captured h))
      /\ (exists ev, captured (hubs w' (_hub tx_trim)) = captured h ++ [ev])
      /\ getClient (hubs w' (_hub tx_trim)) = getClient h
      /\ (forall r, r <> _hub tx_trim -> hubs w' r = hubs (world0 node) r)).
Proof.
  split; [reflexivity|]. split; [reflexivity|].
  apply (@finish_sampled_dispatches_once tx_trim None (world0 node));
    reflexivity.
Defined.

(** X15.  The event dispatched by [finish]: its name is the transaction's
    name, or the placeholder when that name is empty, so never empty; its
    spans are the recorded spans other than the transaction that have an end
    time; its timestamp is the end time the transaction is left with; start
    time, trace id, tracestate are the transaction's; measurements are
    attached exactly when there are some. *)
Theorem finish_event_content (this : Transaction) (arg : option jsnum)
        (w : World) :
  endTimestamp this = None ->
  sampled this = Some true ->
  let '(id, this', w') := finish this arg w in
  exists ev,
    captured (hubs w' (_hub this)) = captured (hubs w (_hub this)) ++ [ev]
    /\ ev_transaction ev
       = (if str_truthy (name this) then name this else unlabeled)
    /\ ev_transaction ev <> []
    /\ ev_type ev = lit "transaction"
    /\ ev_spans ev = finishedSpans this
    /\ (forall s, In s (ev_spans ev) -> opt_num_truthy (endTimestamp s) = true)
    /\ ev_timestamp ev = endTimestamp this'
    /\ ev_start_timestamp ev = startTimestamp this
    /\ tc_trace_id (ev_contexts_trace ev) = traceId this
    /\ ev_tracestate ev = tracestate this
    /\ ev_measurements ev
       = match _measurements this with [] => None | m => Some m end.
Proof.
  intros Hopen Hs.
  destruct (finish_sampled_result this arg w Hopen Hs)
    as (this1 & w1 & this' & Hen & Hthis' & ->).
  pose proof (ensure_name_frame this w) as Hf. rewrite Hen in Hf.
  destruct Hf as (Hspan & _ & _ & _ & Hhubs & _).
  pose proof (ensure_name_fields this w) as Hn. rewrite Hen in Hn.
  cbn [fst] in Hn. destruct Hn as (Hname & Hts & Hms & _).
  destruct (trim_end_fields (with_span this1 (Span_finish this1 arg (now w1)))
                            (finishedSpans this))
    as (Tn & Tts & Tms & _ & _ & _ & Ttid & _ & _ & _ & Tst & _).
  rewrite <- Hthis' in Tn, Tts, Tms, Ttid, Tst. simpl in Tn, Tts, Tms, Ttid, Tst.
  exists (transactionEvent_of this' (finishedSpans this)).
  assert (Hw2 : hubs (match _measurements this with
                      | [] => w1
                      | _ :: _ => logger w1 (Log (lit "[Measurements] Adding measurements to transaction"))
                      end) = hubs w)
    by (destruct (_measurements this); simpl; exact Hhubs).
  split.
  { simpl. rewrite Hw2, Nat.eqb_refl. reflexivity. }
  cbn [transactionEvent_of ev_transaction ev_type ev_spans ev_timestamp
       ev_start_timestamp ev_contexts_trace ev_tracestate ev_measurements
       getTraceContext tc_trace_id].
  rewrite Tn, Hname, Tts, Hts, Tms, Hms, Ttid, Tst, Hspan.
  repeat split.
  - destruct (name this); simpl; discriminate.
  - intros s Hin. unfold finishedSpans in Hin.
    destruct (spanRecorder this); [|contradiction].
    eapply filter_finished_truthy. exact Hin.
Qed.

Lemma finish_event_content_witness :
  endTimestamp tx_trim = None
  /\ sampled tx_trim = Some true
  /\ (let '(id, this', w') := finish tx_trim None (world0 node) in
      exists ev,
        captured (hubs w' (_hub tx_trim))
        = captured (hubs (world0 node) (_hub tx_trim)) ++ [ev]
        /\ ev_transaction ev
           = (if str_truthy (name tx_trim) then name tx_trim else unlabeled)
        /\ ev_transaction ev <> []
        /\ ev_type ev = lit "transaction"
        /\ ev_spans ev = finishedSpans tx_trim
        /\ (forall s, In s (ev_spans ev) ->
              opt_num_truthy (endTimestamp s) = true)
        /\ ev_timestamp ev = endTimestamp this'
        /\ ev_start_timestamp ev = startTimestamp tx_trim
        /\ tc_trace_id (ev_contexts_trace ev) = traceId tx_trim
        /\ ev_tracestate ev = tracestate tx_trim
        /\ ev_measurements ev
           = match _measurements tx_trim with [] => None | m => Some m end).
Proof.
  split; [reflexivity|]. split; [reflexivity|].
  apply (@finish_event_content tx_trim None (world0 node)); reflexivity.
Defined.

(** X16.  Without trimming -- the flag is not set, or no recorded child has
    finished -- an open transaction ends at the time given to [finish], or at
    the current time when none is given, sampled or not. *)
Theorem finish_plain_end (this : Transaction) (arg : option jsnum) (w : World) :
  endTimestamp this = None ->
  _trimEnd this <> Some true \/ finishedSpans this = [] ->
  endTimestamp (snd (fst (finish this arg w)))
  = Some (match arg with Some e => e | None => now w end).
Proof.
  intros Hopen Hplain. unfold finish. rewrite Hopen.
  pose proof (ensure_name_frame this w) as Hf.
  destruct (ensure_name this w) as [this1 w1].
  destruct Hf as (Hspan & Hrec & Htr & _ & _ & Hnow).
  unfold finish_open.
  set (this2 := with_span this1 (Span_finish this1 arg (now w1))).
  assert (Hend : endTimestamp this2
                 = Some (match arg with Some e => e | None => now w end))
    by (simpl; rewrite Hnow; reflexivity).
  assert (Hfin : finishedSpans this2 = finishedSpans this)
    by (unfold finishedSpans; simpl; rewrite Hrec; reflexivity).
  assert (Htr2 : _trimEnd this2 = _trimEnd this) by (simpl; exact Htr).
  destruct (sampled this2) as [[|]|]; try exact Hend.
  rewrite Hfin.
  assert (Hsame : trim_end this2 (finishedSpans this) = this2).
  { unfold trim_end. rewrite Htr2.
    destruct Hplain as [Hno|Hnil].
    - destruct (_trimEnd this) as [[|]|]; try congruence;
        destruct (finishedSpans this); reflexivity.
    - rewrite Hnil. destruct (_trimEnd this) as [[|]|]; reflexivity. }
  rewrite Hsame. destruct (captureEvent _ _) as [id hub]. exact Hend.
Qed.

Lemma finish_plain_end_witness :
  endTimestamp tx_plain = None
  /\ (_trimEnd tx_plain <> Some true \/ finishedSpans tx_plain = [])
  /\ endTimestamp (snd (fst (finish tx_plain (Some (Num 1600)) (world0 browser))))
     = Some (Num 1600).
Proof.
  split; [reflexivity|]. split; [left; discriminate|].
  apply (@finish_plain_end tx_plain (Some (Num 1600)) (world0 browser));
    [reflexivity | left; discriminate].
Defined.

(** X17.  [finish] never touches the identity of a transaction: trace id,
    span id, parent, sampling decision, start time, tags, tracestate, hub,
    trim flag, recorder and measurements are the same after the call; the
    name changes only from the empty string to the placeholder; the log only
    grows, and clock and host are left alone. *)
Theorem finish_frame (this : Transaction) (arg : option jsnum) (w : World) :
  let this' := snd (fst (finish this arg w)) in
  let w' := snd (finish this arg w) in
  traceId this' = traceId this
  /\ spanId this' = spanId this
  /\ parentSpanId this' = parentSpanId this
  /\ sampled this' = sampled this
  /\ startTimestamp this' = startTimestamp this
  /\ tags this' = tags this
  /\ tracestate this' = tracestate this
  /\ _hub this' = _hub this
  /\ _trimEnd this' = _trimEnd this
  /\ spanRecorder this' = spanRecorder this
  /\ _measurements this' = _measurements this
  /\ (name this' = name this \/ (name this = [] /\ name this' = unlabeled))
  /\ (exists extra, logs w' = logs w ++ extra)
  /\ now w' = now w
  /\ global w' = global w.
Proof.
  cbv zeta.
  destruct this as [[tid sid psid smp o d st tg sts ets] nm ts ms hb tr rc].
  unfold finish. cbn [endTimestamp span].
  destruct ets as [e|].
  { cbn [fst snd]. repeat split; auto. exists []. symmetry. apply app_nil_r. }
  unfold ensure_name. cbn [name].
  destruct nm as [|c nm]; cbn [str_truthy negb];
    unfold finish_open; cbn [sampled span with_span setName Span_finish
                             set_endTimestamp];
    destruct smp as [[|]|];
    try (cbn; repeat split; auto;
         eexists; rewrite <- ?app_assoc; reflexivity).
  all: unfold trim_end, finishedSpans;
    cbn [_trimEnd spanRecorder with_span setName];
    destruct tr as [[|]|];
    destruct rc as [spans|]; try destruct (filter_finished spans);
    destruct ms; cbn; repeat split; auto;
    eexists; rewrite <- ?app_assoc;
    first [reflexivity | symmetry; apply app_nil_r].
Qed.

(** ** _getNewTracestate *)

(** X18.  [_getNewTracestate] returns undefined exactly when the hub has no
    client or the client has no dsn, as its documentation says.  It never
    changes a hub, and it leaves the world as it was unless the encoding
    failed, in which case the result is the empty string and one warning is
    logged. *)
Theorem getNewTracestate_undefined (tid : jsstring) (href : HubRef) (w : World) :
  (fst (_getNewTracestate tid href w) = None
   <-> getClient (hubs w href) = None
       \/ exists client, getClient (hubs w href) = Some client
                         /\ getDsn client = None)
  /\ hubs (snd (_getNewTracestate tid href w)) = hubs w
  /\ (snd (_getNewTracestate tid href w) = w
      \/ (fst (_getNewTracestate tid href w) = Some []
          /\ exists err,
               snd (_getNewTracestate tid href w)
               = logger w (WarnThrown (ThrownSentryError err)))).
Proof.
  unfold _getNewTracestate.
  destruct (getClient (hubs w href)) as [client|].
  - destruct (getDsn client) as [dsn|] eqn:Ed.
    + destruct (encode_tracestate (global w) (tracestate_dataStr tid client dsn))
        as [err|v]; cbn [fst snd].
      * split; [|split; [reflexivity|right; eauto]].
        split; [discriminate|].
        intros [H|(c & H & Hd)]; [discriminate|].
        injection H as <-. congruence.
      * split; [|split; [reflexivity|left; reflexivity]].
        split; [discriminate|].
        intros [H|(c & H & Hd)]; [discriminate|].
        injection H as <-. congruence.
    + cbn [fst snd]. split; [|split; [reflexivity|left; reflexivity]].
      split; [|reflexivity]. intros _. right. eauto.
  - cbn [fst snd]. split; [|split; [reflexivity|left; reflexivity]].
    split; [|reflexivity]. intros _. left. reflexivity.
Qed.

(** ** Envelopes, continued *)

(** X19.  The body of a session request is three lines without trailing line
    feed: the header holding [sent_at] alone, the item header
    [{"type":"session"}] and the serialised session; it goes to the envelope
    endpoint. *)
Theorem session_request_three_lines (sent_at : jsstring) (session : Event)
        (api : API) :
  let req := sessionToSentryRequest sent_at session api in
  split_lines (body req)
  = [lit "{" ++ quote (lit "sent_at") ++ lit ":" ++ quote sent_at ++ lit "}";
     session_item_header;
     stringify_object session]
  /\ last (body req) newline <> newline
  /\ url req = getEnvelopeEndpointWithUrlEncodedAuth api
  /\ type req = JStr (lit "session").
Proof.
  cbv zeta. unfold sessionToSentryRequest. cbn [body url type].
  assert (Hh : stringify_object [(lit "sent_at", JStr sent_at)]
               = lit "{" ++ quote (lit "sent_at") ++ lit ":" ++ quote sent_at
                 ++ lit "}").
  { unfold stringify_object, object_text. cbn [flat_map stringify join app].
    rewrite <- !app_assoc. reflexivity. }
  assert (Hi : stringify_object [(lit "type", JStr (lit "session"))]
               = session_item_header) by reflexivity.
  split; [|split; [|split; reflexivity]].
  - change (stringify_object [(lit "sent_at", JStr sent_at)] ++ [newline] ++
            stringify_object [(lit "type", JStr (lit "session"))] ++ [newline] ++
            stringify_object session)
      with (stringify_object [(lit "sent_at", JStr sent_at)] ++ newline ::
            (stringify_object [(lit "type", JStr (lit "session"))] ++ newline ::
             stringify_object session)).
    rewrite !split_lines_app by apply stringify_object_one_line.
    rewrite split_lines_one_line by apply stringify_object_one_line.
    rewrite Hh, Hi. reflexivity.
  - destruct (stringify_object_ends session) as [text ->].
    rewrite !app_assoc. rewrite last_last. discriminate.
Qed.

Lemma delete_idempotent k props : delete k (delete k props) = delete k props.
Proof.
  unfold delete. induction props as [|[k' v] rest IH]; [reflexivity|].
  cbn [filter fst]. destruct (jsstring_eqb k' k) eqn:E; cbn [negb].
  - exact IH.
  - cbn [filter fst]. rewrite E. cbn [negb]. rewrite IH. reflexivity.
Qed.

Lemma get_delete_same k props : get k (delete k props) = JUndefined.
Proof.
  unfold delete. induction props as [|[k' v] rest IH]; [reflexivity|].
  cbn [filter fst]. destruct (jsstring_eqb k' k) eqn:E; cbn [negb]; [exact IH|].
  cbn [get]. rewrite E. exact IH.
Qed.

(** Without [trace], the header is the JSON of the three other fields. *)
Lemma envelopeHeaders_no_trace sent_at event :
  envelopeHeaders_of sent_at event JUndefined
  = stringify_object
      [(lit "event_id", get (lit "event_id") event);
       (lit "sent_at", JStr sent_at);
       (lit "trace_id",
         opt_chain (opt_chain (get (lit "contexts") event) (lit "trace"))
                   (lit "trace_id"))].
Proof.
  unfold envelopeHeaders_of, stringify_object, object_text.
  match goal with
  | |- context [flat_map ?f [?a; ?b; ?c; ?d]] =>
      change (flat_map f [a; b; c; d]) with (flat_map f ([a; b; c] ++ [d]));
      rewrite (flat_map_app f [a; b; c] [d]);
      change (flat_map f [d]) with (@nil jsstring)
  end.
  rewrite app_nil_r. reflexivity.
Qed.

(** X20.  [transactionToSentryRequest] changes the event it is given: the
    [tracestate] property is gone afterwards and every other property is
    kept.  A request built again from the same event object therefore
    carries no [trace] in its header, logs nothing and leaves the event as
    it is. *)
Theorem transaction_request_consumes_tracestate (g : Global)
        (sent_at sent_at' : jsstring) (event : Event) (api : API) :
  let event1 := snd (fst (transactionToSentryRequest g sent_at event api)) in
  let '(req2, event2, logged2) :=
    transactionToSentryRequest g sent_at' event1 api in
  get (lit "tracestate") event1 = JUndefined
  /\ (forall k, k <> lit "tracestate" -> get k event1 = get k event)
  /\ event2 = event1
  /\ logged2 = []
  /\ body req2
     = stringify_object
         [(lit "event_id", get (lit "event_id") event);
          (lit "sent_at", JStr sent_at');
          (lit "trace_id",
            opt_chain (opt_chain (get (lit "contexts") event) (lit "trace"))
                      (lit "trace_id"))]
       ++ [newline] ++ itemHeaders_of event1 ++ [newline]
       ++ stringify_object event1.
Proof.
  cbv zeta.
  assert (H1 : snd (fst (transactionToSentryRequest g sent_at event api))
               = delete (lit "tracestate") event).
  { unfold transactionToSentryRequest.
    destruct (decode_tracestate g (get (lit "tracestate") event)). reflexivity. }
  rewrite H1. unfold transactionToSentryRequest.
  rewrite get_delete_same. cbn [decode_tracestate json_truthy].
  rewrite delete_idempotent. cbn [body].
  split; [reflexivity|]. split.
  { intros k Hk. apply get_delete_other. exact Hk. }
  split; [reflexivity|]. split; [reflexivity|].
  rewrite envelopeHeaders_no_trace.
  rewrite !get_delete_other by discriminate. reflexivity.
Qed.

(** ** From the transaction to the envelope *)

Section EndToEnd.

#[local] Unset Implicit Arguments.









(** On a host that can encode the data, [_getNewTracestate] returns its
    encoding. *)
Lemma getNewTracestate_encodes tid href w client dsn :
  getClient (hubs w href) = Some client ->
  getDsn client = Some dsn ->
  can_encode (global w) (tracestate_dataStr tid client dsn) = true ->
  exists v,
    fst (_getNewTracestate tid href w) = Some v
    /\ encode_tracestate (global w) (tracestate_dataStr tid client dsn) = inr v.
Proof.
  intros Hc Hd Hg. unfold _getNewTracestate. rewrite Hc, Hd.
  unfold encode_tracestate.
  destruct (unicodeToBase64_cases (global w) (tracestate_dataStr tid client dsn))
    as [[Hok _]|[_ Hno]]; [|congruence].
  rewrite Hok. eexists. split; reflexivity.
Qed.

(** What [transactionToSentryRequest] returns, once the value of [trace] is
    known. *)
Lemma transaction_request_with_trace g sent_at event api trace logged :
  decode_tracestate g (get (lit "tracestate") event) = (trace, logged) ->
  transactionToSentryRequest g sent_at event api
  = ({| body :=
          stringify_object
            [(lit "event_id", get (lit "event_id") event);
             (lit "sent_at", JStr sent_at);
             (lit "trace_id",
               opt_chain (opt_chain (get (lit "contexts") event) (lit "trace"))
                         (lit "trace_id"));
             (lit "trace", trace)]
          ++ [newline]
          ++ stringify_object [(lit "type", get (lit "type") event)]
          ++ [newline]
          ++ stringify_object (delete (lit "tracestate") event);
        type := JStr (lit "transaction");
        url := getEnvelopeEndpointWithUrlEncodedAuth api |},
     delete (lit "tracestate") event, logged).
Proof.
  intros Hdec. unfold transactionToSentryRequest. rewrite Hdec.
  rewrite envelopeHeaders_of_deleted. unfold itemHeaders_of.
  rewrite get_delete_other by discriminate. reflexivity.
Qed.

End EndToEnd.



(** X22.  When that length is of the form 3k+2, on a host that can encode
    the data, the value cannot be decoded again, whatever the host that
    decodes: the request is built with the empty string as [trace], the
    property that ends the envelope header, and one warning is logged. *)
Theorem tracestate_lost_in_envelope (tid : jsstring) (href : HubRef) (w : World)
        (client : Client) (dsn : Dsn) (v : jsstring) (g : Global)
        (sent_at : jsstring) (event : Event) (api : API) :
  getClient (hubs w href) = Some client ->
  getDsn client = Some dsn ->
  can_encode (global w) (tracestate_dataStr tid client dsn) = true ->
  fst (_getNewTracestate tid href w) = Some v ->
  (length (tracestate_dataStr tid client dsn) mod 3 = 2)%nat ->
  get (lit "tracestate") event = JStr v ->
  let '(req, event', logged) := transactionToSentryRequest g sent_at event api in
  let envelopeHeaders :=
    stringify_object
      [(lit "event_id", get (lit "event_id") event);
       (lit "sent_at", JStr sent_at);
       (lit "trace_id",
         opt_chain (opt_chain (get (lit "contexts") event) (lit "trace"))
                   (lit "trace_id"));
       (lit "trace", JStr [])] in
  logged = [WarnThrown (ThrownSentryError NotBase64)]
  /\ event' = delete (lit "tracestate") event
  /\ body req
     = envelopeHeaders ++ [newline]
       ++ stringify_object [(lit "type", get (lit "type") event)] ++ [newline]
       ++ stringify_object (delete (lit "tracestate") event)
  /\ exists text,
       envelopeHeaders
       = text ++ lit "," ++ quote (lit "trace") ++ lit ":" ++ quote []
         ++ lit "}".
Proof.
  intros Hc Hd Hw Hv Hmod Hev.
  destruct (getNewTracestate_encodes tid href w client dsn Hc Hd Hw)
    as (v' & Hv' & Henc).
  assert (v' = v) by congruence. subst v'.
  pose proof (@roundtrip_fails_on_double_padding (global w) g
                (tracestate_dataStr tid client dsn) v Hmod Henc) as Hrt.
  rewrite <- Hev in Hrt.
  rewrite (transaction_request_with_trace g sent_at event api _ _ Hrt).
  cbn [body]. split; [reflexivity|]. split; [reflexivity|].
  split; [reflexivity|]. apply envelope_header_tail.
Qed.

Lemma tracestate_lost_in_envelope_witness :
  let tid := lit "12312012123120121231201212312012" in
  getClient (hubs (world0 browser) 0%nat) = Some client0
  /\ getDsn client0 = Some dsn0
  /\ can_encode (global (world0 browser)) (tracestate_dataStr tid client0 dsn0)
     = true
  /\ fst (_getNewTracestate tid 0%nat (world0 browser)) = Some tracestate0
  /\ (length (tracestate_dataStr tid client0 dsn0) mod 3 = 2)%nat
  /\ get (lit "tracestate") (event_tx tracestate0) = JStr tracestate0
  /\ (let '(req, event', logged) :=
        transactionToSentryRequest node sent_at0 (event_tx tracestate0) api0 in
      let envelopeHeaders :=
        stringify_object
          [(lit "event_id", get (lit "event_id") (event_tx tracestate0));
           (lit "sent_at", JStr sent_at0);
           (lit "trace_id",
             opt_chain (opt_chain (get (lit "contexts") (event_tx tracestate0))
                                  (lit "trace"))
                       (lit "trace_id"));
           (lit "trace", JStr [])] in
      logged = [WarnThrown (ThrownSentryError NotBase64)]
      /\ event' = delete (lit "tracestate") (event_tx tracestate0)
      /\ body req
         = envelopeHeaders ++ [newline]
           ++ stringify_object
                [(lit "type", get (lit "type") (event_tx tracestate0))]
           ++ [newline]
           ++ stringify_object (delete (lit "tracestate") (event_tx tracestate0))
      /\ exists text,
           envelopeHeaders
           = text ++ lit "," ++ quote (lit "trace") ++ lit ":" ++ quote []
             ++ lit "}").
Proof.
  cbv zeta.
  split; [reflexivity|]. split; [reflexivity|].
  split; [vm_compute; reflexivity|].
  split; [vm_compute; reflexivity|]. split; [vm_compute; reflexivity|].
  split; [vm_compute; reflexivity|].
  apply (@tracestate_lost_in_envelope
           (lit "12312012123120121231201212312012") 0%nat (world0 browser)
           client0 dsn0 tracestate0 node sent_at0 (event_tx tracestate0) api0);
    [ reflexivity | reflexivity | vm_compute; reflexivity
    | vm_compute; reflexivity | vm_compute; reflexivity
    | vm_compute; reflexivity ].
Defined.
